(** * WebGLLayer: the geometry-to-buffer pipeline

    A shallow embedding of [src/WebGLLayer.js]: the projector
    ([lngToX_], [latToY_], [coordsToXY_]), the colour codec ([packColor] and
    the shader's [float2color]), the matrix helpers ([scaleMatrix_],
    [translateMatrix_] and the matrix part of [update]), the tesselation
    callbacks, and the feature ingestion ([loadData], [processPolygon],
    [changePointColor], [changePolyColor]).

    Numbers.  JavaScript numbers are modelled by exact rationals ([Q]):
    the arithmetic of the source is kept operation by operation, its
    rounding is not modelled.  Counts and array indices are [nat].
    Arrays of numbers are lists of cells, a cell being [Some q] or a hole
    ([None]), since a JavaScript array grows, leaving holes, when it is
    written past its end. *)

From Stdlib Require Import QArith Qround Qabs Qminmax Qpower Lqa ZArith Lia.
From Stdlib Require Import String Ascii.
From stdpp Require Import base list gmap pretty.

Local Open Scope Q_scope.

(** ** Numbers *)

(** [Math.floor], on the rationals. *)
Definition Math_floor (x : Q) : Q := inject_Z (Qfloor x).

(** [a > b] of the source. *)
Definition js_gt (a b : Q) : bool := negb (Qle_bool a b).

(** [Math.pow(2, zoom)] for an integral zoom level. *)
Definition Math_pow2 (zoom : Z) : Q := Qpower 2 zoom.

(** ** Projector *)

(** [WebGLLayer.lngToX_]. *)
Definition lngToX_ (lng : Q) : Q :=
  if js_gt lng 180 then 256 * (lng / 360 - (1#2))
  else 256 * (lng / 360 + (1#2)).

(** ** Colour codec *)

(** A colour is the array [[r, g, b]] of the source; the fields are named
    after the indices the source reads. *)
Record color := Color { c0 : Q; c1 : Q; c2 : Q }.

Definition color_eq (a b : color) : Prop :=
  c0 a == c0 b /\ c1 a == c1 b /\ c2 a == c2 b.

Definition c_precision : Q := 128.
Definition c_precisionp1 : Q := c_precision + 1.

(** [WebGLLayer.packColor]. *)
Definition packColor (color : color) : Q :=
  Math_floor (c0 color * c_precision + (1#2))
  + Math_floor (c2 color * c_precision + (1#2)) * c_precisionp1
  + Math_floor (c1 color * c_precision + (1#2)) * c_precisionp1 * c_precisionp1.

(** GLSL's [mod(x, y)], which is [x - y * floor(x / y)]. *)
Definition glsl_mod (x y : Q) : Q := x - y * Math_floor (x / y).

(** [float2color] of [DEFAULT_POINT_FRAG_SHADER_]. *)
Definition float2color (value : Q) : color :=
  {| c0 := glsl_mod value c_precisionp1 / c_precision;
     c2 := glsl_mod (Math_floor (value / c_precisionp1)) c_precisionp1 / c_precision;
     c1 := Math_floor (value / (c_precisionp1 * c_precisionp1)) / c_precision |}.

(** ** Matrices *)

(** A [Float32Array(16)], column-major; field [m_i] is entry [i]. *)
Record mat4 := Mat4 {
  m_0 : Q; m_1 : Q; m_2 : Q; m_3 : Q;
  m_4 : Q; m_5 : Q; m_6 : Q; m_7 : Q;
  m_8 : Q; m_9 : Q; m_10 : Q; m_11 : Q;
  m_12 : Q; m_13 : Q; m_14 : Q; m_15 : Q }.

Definition mat4_eq (a b : mat4) : Prop :=
  (m_0 a == m_0 b /\ m_1 a == m_1 b /\ m_2 a == m_2 b /\ m_3 a == m_3 b) /\
  (m_4 a == m_4 b /\ m_5 a == m_5 b /\ m_6 a == m_6 b /\ m_7 a == m_7 b) /\
  (m_8 a == m_8 b /\ m_9 a == m_9 b /\ m_10 a == m_10 b /\ m_11 a == m_11 b) /\
  (m_12 a == m_12 b /\ m_13 a == m_13 b /\ m_14 a == m_14 b /\ m_15 a == m_15 b).

(** [WebGLLayer.scaleMatrix_]. *)
Definition scaleMatrix_ (matrix : mat4) (scaleX scaleY : Q) : mat4 :=
  {| m_0 := m_0 matrix * scaleX; m_1 := m_1 matrix * scaleX;
     m_2 := m_2 matrix * scaleX; m_3 := m_3 matrix * scaleX;
     m_4 := m_4 matrix * scaleY; m_5 := m_5 matrix * scaleY;
     m_6 := m_6 matrix * scaleY; m_7 := m_7 matrix * scaleY;
     m_8 := m_8 matrix; m_9 := m_9 matrix;
     m_10 := m_10 matrix; m_11 := m_11 matrix;
     m_12 := m_12 matrix; m_13 := m_13 matrix;
     m_14 := m_14 matrix; m_15 := m_15 matrix |}.

(** [WebGLLayer.translateMatrix_]. *)
Definition translateMatrix_ (matrix : mat4) (tx ty : Q) : mat4 :=
  {| m_0 := m_0 matrix; m_1 := m_1 matrix; m_2 := m_2 matrix; m_3 := m_3 matrix;
     m_4 := m_4 matrix; m_5 := m_5 matrix; m_6 := m_6 matrix; m_7 := m_7 matrix;
     m_8 := m_8 matrix; m_9 := m_9 matrix;
     m_10 := m_10 matrix; m_11 := m_11 matrix;
     m_12 := m_12 matrix + (m_0 matrix * tx + m_4 matrix * ty);
     m_13 := m_13 matrix + (m_1 matrix * tx + m_5 matrix * ty);
     m_14 := m_14 matrix + (m_2 matrix * tx + m_6 matrix * ty);
     m_15 := m_15 matrix + (m_3 matrix * tx + m_7 matrix * ty) |}.

(** The matrix that [resize_] stores in [pixelsToWebGLMatrix_]. *)
Definition resize_ (resolutionScale canvasWidth canvasHeight : Q) : mat4 :=
  {| m_0 := 2 * resolutionScale / canvasWidth; m_1 := 0; m_2 := 0; m_3 := 0;
     m_4 := 0; m_5 := -(2) * resolutionScale / canvasHeight; m_6 := 0; m_7 := 0;
     m_8 := 0; m_9 := 0; m_10 := 0; m_11 := 0;
     m_12 := -(1); m_13 := 1; m_14 := 0; m_15 := 1 |}.

(** The matrix part of [update]: [mapMatrix_] is set to a copy of
    [pixelsToWebGLMatrix_], scaled by [Math.pow(2, zoom)] and translated by
    the negated [offset] (the world point of the canvas' top left corner,
    which the map's projection supplies). *)
Definition update_mapMatrix (pixelsToWebGLMatrix_ : mat4) (zoom : Z) (offset : Q * Q) : mat4 :=
  let mapMatrix_ := pixelsToWebGLMatrix_ in
  let scale := Math_pow2 zoom in
  let mapMatrix_ := scaleMatrix_ mapMatrix_ scale scale in
  translateMatrix_ mapMatrix_ (- fst offset) (- snd offset).

(** ** Arrays of numbers *)

(** The assignment [a[i] = v] of JavaScript: in range it replaces the cell,
    past the end it extends the array, the cells in between being holes. *)
Definition js_set (a : list (option Q)) (i : nat) (v : Q) : list (option Q) :=
  if decide (i < length a)%nat then <[i := Some v]> a
  else a ++ replicate (i - length a) None ++ [Some v].

(** ** The host: [Math] and the libtess tesselator *)

Inductive primitiveType : Set :=
  GL_LINE_LOOP | GL_TRIANGLES | GL_TRIANGLE_STRIP | GL_TRIANGLE_FAN.

(** The callbacks a [libtess.GluTesselator] makes while a polygon is fed to
    it and tesselated, in the order it makes them.  A vertex datum is the
    array [[x, y, z]] given to [gluTessVertex] or returned by the combine
    callback. *)
Inductive tess_event : Type :=
  | TessBegin (type : primitiveType)
  | TessVertexData (data : Q * Q * Q)
  | TessError (errno : Z)
  | TessCombine (coords : Q * Q * Q)
  | TessEdgeFlag (flag : bool).

(** What the source takes from its environment: [Math.log], [Math.tan] and
    [Math.PI] (approximated by the implementation), and libtess.  The
    tesselator is an object with a state of its own; [tess_polygon] gives,
    for the contours fed between [gluTessBeginPolygon] and
    [gluTessEndPolygon], the callbacks made and the tesselator's next
    state.  Nothing is assumed about them. *)
Class Host : Type := {
  Math_log : Q -> Q;
  Math_tan : Q -> Q;
  Math_PI : Q;
  tess_state : Type;
  tess_new : tess_state;
  tess_polygon : tess_state -> list (list (Q * Q * Q)) -> list tess_event * tess_state
}.

(** ** Features *)

(** A position [[lng, lat]]. *)
Definition position : Type := Q * Q.

Inductive geometry_t : Type :=
  | Point (coordinates : position)
  | Polygon (coordinates : list (list position))
  | MultiPolygon (coordinates : list (list (list position)))
  | OtherGeometry (type : string).

(** The fields of [feature.properties] that the layer writes; a field that
    was never written is [None]. *)
Record properties_t : Type := {
  index : option nat;
  indexStart : option nat;
  indexEnd : option nat }.

Record feature_t : Type := {
  geometry : geometry_t;
  properties : properties_t }.

Definition set_index (f : feature_t) (v : nat) : feature_t :=
  {| geometry := geometry f;
     properties := {| index := Some v;
                      indexStart := indexStart (properties f);
                      indexEnd := indexEnd (properties f) |} |}.

Definition set_indexStart (f : feature_t) (v : nat) : feature_t :=
  {| geometry := geometry f;
     properties := {| index := index (properties f);
                      indexStart := Some v;
                      indexEnd := indexEnd (properties f) |} |}.

Definition set_indexEnd (f : feature_t) (v : nat) : feature_t :=
  {| geometry := geometry f;
     properties := {| index := index (properties f);
                      indexStart := indexStart (properties f);
                      indexEnd := Some v |} |}.

(** ** The layer's state *)

(** [this.features_.points]. *)
Module Points.
Record t : Type := {
  defaultColor : color;
  floats : list (option Q);
  count : nat;
  changed : bool }.
End Points.

(** [this.features_.polygons]. *)
Module Polygons.
Record t : Type := {
  floats : list (option Q);
  count : nat;
  borderFloats : list (option Q);
  borderCount : nat;
  borderCounts : list nat;
  changed : bool }.
End Polygons.

(** How a call ends: normally, or by an exception thrown by
    [errorCallback_], which carries libtess's error number. *)
Inductive completion : Type :=
  | Normal
  | Throw (errno : Z).

(** ** Tesselation callbacks *)

(** [WebGLLayer.vertexCallback_]: the array it is given, with three cells
    pushed. *)
Definition vertexCallback_ (data : Q * Q * Q) (polyVertArray : list (option Q))
  : list (option Q) :=
  polyVertArray ++ [Some (fst (fst data)); Some (snd (fst data));
                    Some (packColor (Color 1 0 0))].

(** [WebGLLayer.beginCallback_] writes to the console when the type is not
    [GL_TRIANGLES] and changes nothing else; this is whether it writes. *)
Definition beginCallback_ (type : primitiveType) : bool :=
  match type with GL_TRIANGLES => false | _ => true end.

(** [WebGLLayer.errorCallback_] throws. *)
Definition errorCallback_ (errno : Z) : completion := Throw errno.

(** [WebGLLayer.combineCallback_]. *)
Definition combineCallback_ (coords : Q * Q * Q) : Q * Q * Q :=
  (fst (fst coords), snd (fst coords), snd coords).

(** The callbacks run in the order libtess makes them, on the array given
    to [gluTessBeginPolygon].  The first error callback throws, which ends
    the run; the values the begin, combine and edge-flag callbacks return
    go back to libtess. *)
Fixpoint run_callbacks (events : list tess_event) (polyVertArray : list (option Q))
  : list (option Q) * completion :=
  match events with
  | [] => (polyVertArray, Normal)
  | TessVertexData data :: rest =>
      run_callbacks rest (vertexCallback_ data polyVertArray)
  | TessError errno :: _ => (polyVertArray, errorCallback_ errno)
  | TessBegin _ :: rest
  | TessCombine _ :: rest
  | TessEdgeFlag _ :: rest => run_callbacks rest polyVertArray
  end.

(** The number of vertex callbacks among the events, and the number of
    triangles they make: libtess emits [GL_TRIANGLES], three vertex
    callbacks a triangle. *)
Fixpoint vertex_events (events : list tess_event) : nat :=
  match events with
  | [] => 0
  | TessVertexData _ :: rest => S (vertex_events rest)
  | _ :: rest => vertex_events rest
  end.

Definition triangle_count (events : list tess_event) : nat :=
  (vertex_events events / 3)%nat.

Section Layer.
Context `{host : Host}.

(** [WebGLLayer.latToY_]. *)
Definition latToY_ (lat : Q) : Q :=
  let merc := - Math_log (Math_tan (((1#4) + lat / 360) * Math_PI)) in
  128 * (1 + merc / Math_PI).

(** [WebGLLayer.coordsToXY_]. *)
Definition coordsToXY_ (coords : position) : Q * Q :=
  (lngToX_ (fst coords), latToY_ (snd coords)).

(** The layer: the feature buffers, the tesselator, and two records of what
    the layer asked of its collaborators: the features passed to
    [onAddFeature], oldest first, and the number of calls of
    [scheduleUpdate]. *)
Record layer : Type := {
  points : Points.t;
  polygons : Polygons.t;
  tesselator_ : tess_state;
  added : list feature_t;
  scheduled : nat }.

(** The state the constructor leaves. *)
Definition new_layer : layer :=
  {| points := {| Points.defaultColor := Color 1 0 0; Points.floats := [];
                  Points.count := 0; Points.changed := false |};
     polygons := {| Polygons.floats := []; Polygons.count := 0;
                    Polygons.borderFloats := []; Polygons.borderCount := 0;
                    Polygons.borderCounts := []; Polygons.changed := false |};
     tesselator_ := tess_new;
     added := [];
     scheduled := 0 |}.

Definition with_points (L : layer) (p : Points.t) : layer :=
  {| points := p; polygons := polygons L; tesselator_ := tesselator_ L;
     added := added L; scheduled := scheduled L |}.

Definition with_polygons (L : layer) (p : Polygons.t) : layer :=
  {| points := points L; polygons := p; tesselator_ := tesselator_ L;
     added := added L; scheduled := scheduled L |}.

Definition with_tesselator (L : layer) (t : tess_state) : layer :=
  {| points := points L; polygons := polygons L; tesselator_ := t;
     added := added L; scheduled := scheduled L |}.

(** [scheduleUpdate] and [onAddFeature] (whose default body is empty). *)
Definition scheduleUpdate (L : layer) : layer :=
  {| points := points L; polygons := polygons L; tesselator_ := tesselator_ L;
     added := added L; scheduled := S (scheduled L) |}.

Definition onAddFeature (feature : feature_t) (L : layer) : layer :=
  {| points := points L; polygons := polygons L; tesselator_ := tesselator_ L;
     added := added L ++ [feature]; scheduled := scheduled L |}.

(** ** Recolouring *)

(** [WebGLLayer.prototype.setDefaultPointColor]. *)
Definition setDefaultPointColor (color : color) (L : layer) : layer :=
  with_points L
    {| Points.defaultColor := color; Points.floats := Points.floats (points L);
       Points.count := Points.count (points L);
       Points.changed := Points.changed (points L) |}.

(** [WebGLLayer.prototype.changePointColor]. *)
Definition changePointColor (idx : nat) (color : color) (L : layer) : layer :=
  scheduleUpdate (with_points L
    {| Points.defaultColor := Points.defaultColor (points L);
       Points.floats := js_set (Points.floats (points L)) (idx * 3 + 2) (packColor color);
       Points.count := Points.count (points L);
       Points.changed := true |}).

(** The loop of [changePolyColor]: [i] runs from [idxStart] while
    [i <= idxEnd]; [n] is the number of iterations left. *)
Fixpoint changePolyColor_loop (n i : nat) (color : color) (floats : list (option Q))
  : list (option Q) :=
  match n with
  | O => floats
  | S n' => changePolyColor_loop n' (S i) color (js_set floats (i * 3 + 2) (packColor color))
  end.

(** [WebGLLayer.prototype.changePolyColor]. *)
Definition changePolyColor (idxStart idxEnd : nat) (color : color) (L : layer) : layer :=
  scheduleUpdate (with_polygons L
    {| Polygons.floats :=
         changePolyColor_loop (S idxEnd - idxStart) idxStart color
           (Polygons.floats (polygons L));
       Polygons.count := Polygons.count (polygons L);
       Polygons.borderFloats := Polygons.borderFloats (polygons L);
       Polygons.borderCount := Polygons.borderCount (polygons L);
       Polygons.borderCounts := Polygons.borderCounts (polygons L);
       Polygons.changed := true |}).

(** ** Polygon processing *)

(** What the inner function of [processPolygon] pushes on [borderPoints]
    for one position, and the array [adj] it gives to [gluTessVertex]. *)
Definition border_vertex (coords : position) : list (option Q) :=
  let xy := coordsToXY_ coords in
  [Some (fst xy); Some (snd xy); Some (packColor (Color 0 0 0))].

Definition adj (coords : position) : Q * Q * Q :=
  let xy := coordsToXY_ coords in (fst xy, snd xy, 0).

(** [WebGLLayer.prototype.processPolygon].  [polyVerts] and [borderPoints]
    are local arrays; the layer's buffers are assigned after
    [gluTessEndPolygon] only, so that a throw leaves them as they were.
    The two lengths are multiples of 3 ([run_callbacks_normal],
    [length_border_points]), so that the divisions by 3 are exact. *)
Definition processPolygon (coordinates : list (list position)) (L : layer)
  : layer * completion :=
  let polyVerts := [] in
  let borderPoints := concat (map (fun contour => concat (map border_vertex contour)) coordinates) in
  let '(events, tesselator) := tess_polygon (tesselator_ L) (map (map adj) coordinates) in
  let L := with_tesselator L tesselator in
  match run_callbacks events polyVerts with
  | (_, Throw errno) => (L, Throw errno)
  | (polyVerts, Normal) =>
      (with_polygons L
         {| Polygons.floats := Polygons.floats (polygons L) ++ polyVerts;
            Polygons.count := Polygons.count (polygons L) + length polyVerts / 3;
            Polygons.borderFloats := Polygons.borderFloats (polygons L) ++ borderPoints;
            Polygons.borderCount := Polygons.borderCount (polygons L) + length borderPoints / 3;
            Polygons.borderCounts := Polygons.borderCounts (polygons L);
            Polygons.changed := Polygons.changed (polygons L) |},
       Normal)
  end.

(** ** Loading *)

Definition push_borderCounts (n : nat) (L : layer) : layer :=
  with_polygons L
    {| Polygons.floats := Polygons.floats (polygons L);
       Polygons.count := Polygons.count (polygons L);
       Polygons.borderFloats := Polygons.borderFloats (polygons L);
       Polygons.borderCount := Polygons.borderCount (polygons L);
       Polygons.borderCounts := Polygons.borderCounts (polygons L) ++ [n];
       Polygons.changed := Polygons.changed (polygons L) |}.

Definition set_polygons_changed (L : layer) : layer :=
  with_polygons L
    {| Polygons.floats := Polygons.floats (polygons L);
       Polygons.count := Polygons.count (polygons L);
       Polygons.borderFloats := Polygons.borderFloats (polygons L);
       Polygons.borderCount := Polygons.borderCount (polygons L);
       Polygons.borderCounts := Polygons.borderCounts (polygons L);
       Polygons.changed := true |}.

(** The loop over [j] of the ['MultiPolygon'] case. *)
Fixpoint multiPolygon_loop (parts : list (list (list position))) (L : layer)
  : layer * completion :=
  match parts with
  | [] => (L, Normal)
  | part :: rest =>
      let borderCount := Polygons.borderCount (polygons L) in
      match processPolygon part L with
      | (L, Throw errno) => (L, Throw errno)
      | (L, Normal) =>
          multiPolygon_loop rest
            (push_borderCounts (Polygons.borderCount (polygons L) - borderCount) L)
      end
  end.

(** The body of the loop of [loadData], for one feature: the feature as
    the body leaves it (the object is written in place, also when the body
    throws), the layer, and how the body ends.  A geometry type without a
    case in the [switch] is passed over. *)
Definition load_feature (feature : feature_t) (L : layer)
  : feature_t * layer * completion :=
  match geometry feature with
  | Point coordinates =>
      let xy := coordsToXY_ coordinates in
      let P := points L in
      let floats := Points.floats P ++
        [Some (fst xy); Some (snd xy); Some (packColor (Points.defaultColor P))] in
      let feature := set_index feature (Points.count P) in
      let L := with_points L
        {| Points.defaultColor := Points.defaultColor P; Points.floats := floats;
           Points.count := S (Points.count P); Points.changed := true |} in
      (feature, onAddFeature feature L, Normal)
  | Polygon coordinates =>
      let feature := set_indexStart feature (Polygons.count (polygons L)) in
      let borderCount := Polygons.borderCount (polygons L) in
      match processPolygon coordinates L with
      | (L, Throw errno) => (feature, L, Throw errno)
      | (L, Normal) =>
          let L := push_borderCounts (Polygons.borderCount (polygons L) - borderCount) L in
          let feature := set_indexEnd feature (Polygons.count (polygons L)) in
          let L := set_polygons_changed L in
          (feature, onAddFeature feature L, Normal)
      end
  | MultiPolygon coordinates =>
      let feature := set_indexStart feature (Polygons.count (polygons L)) in
      match multiPolygon_loop coordinates L with
      | (L, Throw errno) => (feature, L, Throw errno)
      | (L, Normal) =>
          let feature := set_indexEnd feature (Polygons.count (polygons L)) in
          let L := set_polygons_changed L in
          (feature, onAddFeature feature L, Normal)
      end
  | OtherGeometry _ => (feature, L, Normal)
  end.

(** The loop of [loadData] over [data.features]: a throw ends it, and the
    features after the one that threw are left as they came. *)
Fixpoint loadData_loop (features : list feature_t) (L : layer)
  : list feature_t * layer * completion :=
  match features with
  | [] => ([], L, Normal)
  | feature :: rest =>
      match load_feature feature L with
      | (feature, L, Throw errno) => (feature :: rest, L, Throw errno)
      | (feature, L, Normal) =>
          let '(rest, L, c) := loadData_loop rest L in
          (feature :: rest, L, c)
      end
  end.

(** [WebGLLayer.prototype.loadData]: [data.features] as the call leaves
    it, the layer, and how the call ends. *)
Definition loadData (features : list feature_t) (L : layer)
  : list feature_t * layer * completion :=
  match loadData_loop features L with
  | (features, L, Throw errno) => (features, L, Throw errno)
  | (features, L, Normal) => (features, scheduleUpdate L, Normal)
  end.

End Layer.

(** ** Operations on a layer *)

(** The calls a client makes on a layer, and a sequence of them run from a
    given state.  An exception that leaves [loadData] ends the event
    handler that called it; the layer stays as the throw left it, and the
    next call finds it so. *)
Inductive operation : Type :=
  | LoadData (features : list feature_t)
  | ChangePointColor (idx : nat) (color : color)
  | ChangePolyColor (idxStart idxEnd : nat) (color : color)
  | SetDefaultPointColor (color : color).

Definition run_operation `{host : Host} (op : operation) (L : layer) : layer :=
  match op with
  | LoadData features => snd (fst (loadData features L))
  | ChangePointColor idx color => changePointColor idx color L
  | ChangePolyColor idxStart idxEnd color => changePolyColor idxStart idxEnd color L
  | SetDefaultPointColor color => setDefaultPointColor color L
  end.

Definition run_operations `{host : Host} (ops : list operation) (L : layer) : layer :=
  fold_left (fun L op => run_operation op L) ops L.

(** ** A host to evaluate with *)

(** libtess refuses a coordinate beyond [GLU_TESS_MAX_COORD] = 1e150 with
    the error [GLU_TESS_COORD_TOO_LARGE] = 100155. *)
Definition GLU_TESS_MAX_COORD : Q := inject_Z (10 ^ 150).
Definition GLU_TESS_COORD_TOO_LARGE : Z := 100155.

Definition coord_too_large (v : Q * Q * Q) : bool :=
  let too_large x := js_gt (Qabs x) GLU_TESS_MAX_COORD in
  too_large (fst (fst v)) || too_large (snd (fst v)) || too_large (snd v).

(** The triangles of a fan around [v0]. *)
Fixpoint fan (v0 : Q * Q * Q) (rest : list (Q * Q * Q)) : list tess_event :=
  match rest with
  | a :: (b :: _) as tl =>
      TessVertexData v0 :: TessVertexData a :: TessVertexData b :: fan v0 tl
  | _ => []
  end.

Definition fan_polygon (_ : unit) (contours : list (list (Q * Q * Q)))
  : list tess_event * unit :=
  if existsb (existsb coord_too_large) contours
  then ([TessError GLU_TESS_COORD_TOO_LARGE], tt)
  else match contours with
       | (v0 :: rest) :: _ => (TessBegin GL_TRIANGLES :: fan v0 rest, tt)
       | _ => ([], tt)
       end.

(** A host for closed evaluation: first terms of the series of [tan] and
    [log], a rational [PI], and a tesselator that keeps libtess's guard on
    the coordinates and cuts the first contour into a fan, which is N - 2
    triangles for N vertices. *)
Definition fan_host : Host :=
  {| Math_log := fun x => 2 * ((x - 1) / (x + 1));
     Math_tan := fun x => x + x * x * x / 3;
     Math_PI := 355 # 113;
     tess_state := unit;
     tess_new := tt;
     tess_polygon := fan_polygon |}.

Definition no_properties : properties_t :=
  {| index := None; indexStart := None; indexEnd := None |}.

Definition feature_of (g : geometry_t) : feature_t :=
  {| geometry := g; properties := no_properties |}.

Definition triangle_ring : list position := [(0, 0); (1, 0); (0, 1)].
Definition square_ring : list position := [(0, 0); (10, 0); (10, 10); (0, 10)].

(** A ring with a longitude that projects beyond libtess's bound. *)
Definition far_ring : list position := [(0, 0); (inject_Z (10 ^ 153), 0); (0, 1)].


(** ** Notions the properties are stated with *)

(** [q] is [x] rounded to the nearest integer, a half going up. *)
Definition rounds_to (x : Q) (q : Z) : Prop :=
  inject_Z q - (1#2) <= x /\ x < inject_Z q + (1#2).

(** The 129 levels of a channel, and the colour of the quantisation grid
    with given levels. *)
Definition level (q : Z) : Prop := (0 <= q <= 128)%Z.

Definition grid_color (qr qg qb : Z) : color :=
  Color (inject_Z qr / 128) (inject_Z qg / 128) (inject_Z qb / 128).

(** The quantised channel that [packColor] computes. *)
Definition quantize (c : Q) : Z := Qfloor (c * c_precision + (1#2)).

(** The finite numbers of IEEE 754 binary32: a significand of 24 bits and
    an exponent from -149 to 104. *)
Definition binary32_representable (x : Q) : Prop :=
  exists m e : Z,
    (Z.abs m < 2 ^ 24)%Z /\ (-149 <= e <= 104)%Z /\ x == inject_Z m * Qpower 2 e.

(** The product [mapMatrix * worldCoord] of [DEFAULT_POINT_VERT_SHADER_],
    the matrix being column-major. *)
Definition mat4_apply (m : mat4) (v : Q * Q * Q * Q) : Q * Q * Q * Q :=
  let '(x, y, z, w) := v in
  (m_0 m * x + m_4 m * y + m_8 m * z + m_12 m * w,
   m_1 m * x + m_5 m * y + m_9 m * z + m_13 m * w,
   m_2 m * x + m_6 m * y + m_10 m * z + m_14 m * w,
   m_3 m * x + m_7 m * y + m_11 m * z + m_15 m * w).

Definition vec4_eq (a b : Q * Q * Q * Q) : Prop :=
  let '(a0, a1, a2, a3) := a in
  let '(b0, b1, b2, b3) := b in
  a0 == b0 /\ a1 == b1 /\ a2 == b2 /\ a3 == b3.

(** The error number of the first error callback among the events. *)
Fixpoint first_error (events : list tess_event) : option Z :=
  match events with
  | [] => None
  | TessError errno :: _ => Some errno
  | _ :: rest => first_error rest
  end.

(** The number of positions of a polygon, all rings together. *)
Definition polygon_vertices (coordinates : list (list position)) : nat :=
  length (concat coordinates).

(** The number of [Point] features of a payload. *)
Fixpoint point_features (features : list feature_t) : nat :=
  match features with
  | [] => 0
  | f :: rest =>
      match geometry f with
      | Point _ => S (point_features rest)
      | _ => point_features rest
      end
  end.

(** The entries of [borderCounts] add up to the number of border vertices,
    three cells each. *)
Definition border_invariant `{host : Host} (L : layer) : Prop :=
  (3 * sum_list (Polygons.borderCounts (polygons L))
   = length (Polygons.borderFloats (polygons L)))%nat.

(** The point count is the number of points passed to [onAddFeature]. *)
Definition points_counted `{host : Host} (L : layer) : Prop :=
  Points.count (points L) = point_features (added L).

(** Whether [loadData] has a case for the geometry of a feature, and which. *)
Definition supported (f : feature_t) : bool :=
  match geometry f with OtherGeometry _ => false | _ => true end.

Definition is_point (f : feature_t) : bool :=
  match geometry f with Point _ => true | _ => false end.

Definition is_polygonal (f : feature_t) : bool :=
  match geometry f with Polygon _ | MultiPolygon _ => true | _ => false end.

(** The fill ranges stamped on the Polygon and MultiPolygon features of a
    payload follow each other from [first] to [last]. *)
Fixpoint ranges_chain (first : nat) (features : list feature_t) (last : nat) : Prop :=
  match features with
  | [] => first = last
  | f :: rest =>
      if is_polygonal f then
        exists e : nat,
          indexStart (properties f) = Some first /\
          indexEnd (properties f) = Some e /\
          (first <= e)%nat /\
          ranges_chain e rest last
      else ranges_chain first rest last
  end.

(** The Point features of a payload are stamped [first], [first + 1], ... *)
Fixpoint points_numbered (first : nat) (features : list feature_t) : Prop :=
  match features with
  | [] => True
  | f :: rest =>
      if is_point f then
        index (properties f) = Some first /\ points_numbered (S first) rest
      else points_numbered first rest
  end.

(** The data of the vertex callbacks among the events, in order. *)
Fixpoint vertex_data (events : list tess_event) : list (Q * Q * Q) :=
  match events with
  | [] => []
  | TessVertexData data :: rest => data :: vertex_data rest
  | _ :: rest => vertex_data rest
  end.

(** Every buffer has three cells to a counted vertex, and the border count
    is the sum of the border counts. *)
Definition sized `{host : Host} (L : layer) : Prop :=
  (length (Points.floats (points L)) = 3 * Points.count (points L) /\
   length (Polygons.floats (polygons L)) = 3 * Polygons.count (polygons L) /\
   length (Polygons.borderFloats (polygons L)) = 3 * Polygons.borderCount (polygons L) /\
   sum_list (Polygons.borderCounts (polygons L)) = Polygons.borderCount (polygons L))%nat.

(** The buffers of [L'] extend those of [L], and nothing else of the
    contents moved: arrays are extended at the end, counts do not go
    down, dirty flags are not cleared, the default colour is kept. *)
Definition grows `{host : Host} (L L' : layer) : Prop :=
  Points.floats (points L) `prefix_of` Points.floats (points L') /\
  Polygons.floats (polygons L) `prefix_of` Polygons.floats (polygons L') /\
  Polygons.borderFloats (polygons L) `prefix_of` Polygons.borderFloats (polygons L') /\
  Polygons.borderCounts (polygons L) `prefix_of` Polygons.borderCounts (polygons L') /\
  added L `prefix_of` added L' /\
  (Points.count (points L) <= Points.count (points L'))%nat /\
  (Polygons.count (polygons L) <= Polygons.count (polygons L'))%nat /\
  (Polygons.borderCount (polygons L) <= Polygons.borderCount (polygons L'))%nat /\
  (Points.changed (points L) = true -> Points.changed (points L') = true) /\
  (Polygons.changed (polygons L) = true -> Polygons.changed (polygons L') = true) /\
  Points.defaultColor (points L') = Points.defaultColor (points L).

(** The three cells [vertexCallback_] pushes for a vertex. *)
Definition fill_vertex (data : Q * Q * Q) : list (option Q) :=
  [Some (fst (fst data)); Some (snd (fst data)); Some (packColor (Color 1 0 0))].

(** A payload with every kind of feature. *)
Definition mixed_payload : list feature_t :=
  [feature_of (Polygon [triangle_ring]);
   feature_of (Point (0, 0));
   feature_of (MultiPolygon [[triangle_ring]; [square_ring]]);
   feature_of (OtherGeometry "LineString");
   feature_of (Point (1, 1))].

(** A polygon with a hole. *)
Definition holed_polygon : list (list position) := [square_ring; triangle_ring].

(** What [fan_host] makes of them, evaluated. *)
Definition mixed_loaded : list feature_t * layer (host := fan_host) * completion :=
  Eval vm_compute in loadData (host := fan_host) mixed_payload new_layer.

Definition holed_loaded : feature_t * layer (host := fan_host) * completion :=
  Eval vm_compute in
    load_feature (host := fan_host)
      {| geometry := Polygon holed_polygon; properties := no_properties |} new_layer.

(** ** Tiles *)

(** A [google.maps.LatLng]. *)
Record latlng : Type := { lat : Q; lng : Q }.

(** What [update] and [loadTiles] ask of the map and of the canvas layer:
    [getZoom()], the corners of [getBounds()], and the world point of
    [getTopLeft()] under the map's projection. *)
Record map_t : Type := {
  map_zoom : Z;
  map_southWest : latlng;
  map_northEast : latlng;
  map_topLeft : Q * Q }.

(** [WebGLLayer.loc2Tiles].  The two numbers are results of [Math.floor]
    and are kept as integers.  [Math.cos] is taken as a parameter, like
    the other functions of [Math]. *)
Definition loc2Tiles `{host : Host} (Math_cos : Q -> Q) (loc : latlng) (zoom : Z) : Z * Z :=
  (Qfloor ((lng loc + 180) / 360 * Math_pow2 zoom),
   Qfloor ((1 - Math_log (Math_tan (lat loc * Math_PI / 180)
                          + 1 / Math_cos (lat loc * Math_PI / 180)) / Math_PI) / 2
           * Math_pow2 zoom)).

(** The string [tilebase + zoom + '/' + row + '/' + col + '.geojson'].  A
    [tilebase] that is [null] adds nothing to it, [null + zoom] being the
    number [zoom].  Whole numbers are printed in decimal, as JavaScript
    prints them below 10^21. *)
Definition tile_url (tilebase : option string) (zoom row col : Z) : string :=
  (default "" tilebase +:+ pretty zoom +:+ "/" +:+ pretty row +:+ "/"
   +:+ pretty col +:+ ".geojson")%string.

(** The tiles the two loops of [loadTiles] visit, in the order they visit
    them: [row] from [bottomLeft[0]] while [row <= topRight[0]], and for
    each [col] from [topRight[1]] while [col <= bottomLeft[1]]. *)
Definition tile_range (bottomLeft topRight : Z * Z) : list (Z * Z) :=
  flat_map (fun row => map (fun col => (row, col))
                         (seqZ (snd topRight) (snd bottomLeft - snd topRight + 1)))
           (seqZ (fst bottomLeft) (fst topRight - fst bottomLeft + 1)).

(** The body of the loops, over the tiles in that order: a tile whose url
    is in [tilecache_] is passed over, another one is entered in it and
    requested.  The result is the urls requested, in order, and the cache.
    [tilecache_] is an array used as a map from urls to [true]; the urls
    all end in [.geojson], so that none is a key an array has of its own,
    and the map is kept as the set of its keys. *)
Fixpoint request_tiles (tilebase : option string) (zoom : Z) (tiles : list (Z * Z))
    (tilecache : gset string) : list string * gset string :=
  match tiles with
  | [] => ([], tilecache)
  | (row, col) :: rest =>
      let url := tile_url tilebase zoom row col in
      if decide (url ∈ tilecache) then request_tiles tilebase zoom rest tilecache
      else
        let '(requests, tilecache) :=
          request_tiles tilebase zoom rest ({[url]} ∪ tilecache) in
        (url :: requests, tilecache)
  end.

(** [if (this.zoomlock)]: [null] and 0 are not taken. *)
Definition locked_zoom (zoomlock : option Z) (zoom : Z) : Z :=
  match zoomlock with
  | Some z => if decide (z = 0%Z) then zoom else z
  | None => zoom
  end.

(** [WebGLLayer.prototype.loadTiles]: the urls requested and the cache. *)
Definition loadTiles `{host : Host} (Math_cos : Q -> Q) (map : map_t)
    (tilebase : option string) (zoomlock : option Z) (tilecache : gset string)
  : list string * gset string :=
  let zoom := locked_zoom zoomlock (map_zoom map) in
  let bottomLeft := loc2Tiles Math_cos (map_southWest map) zoom in
  let topRight := loc2Tiles Math_cos (map_northEast map) zoom in
  request_tiles tilebase zoom (tile_range bottomLeft topRight) tilecache.

(** A sequence of calls of [loadTiles], one for each view in turn: all
    the urls requested, in order, and the cache. *)
Fixpoint loadTiles_views `{host : Host} (Math_cos : Q -> Q) (maps : list map_t)
    (tilebase : option string) (zoomlock : option Z) (tilecache : gset string)
  : list string * gset string :=
  match maps with
  | [] => ([], tilecache)
  | map :: rest =>
      let '(requests, tilecache) := loadTiles Math_cos map tilebase zoomlock tilecache in
      let '(requests', tilecache) :=
        loadTiles_views Math_cos rest tilebase zoomlock tilecache in
      (requests ++ requests', tilecache)
  end.

(** Whether a character occurs in a string. *)
Fixpoint has_char (c : ascii) (s : string) : bool :=
  match s with
  | EmptyString => false
  | String c' s' => if decide (c' = c) then true else has_char c s'
  end.

(** ** Drawing *)

Inductive gl_buffer : Set := polygons_buffer | polygons_borderbuffer | points_buffer.
Inductive gl_attribute : Set := worldCoord | aColor.
Inductive gl_mode : Set := gl_POINTS | gl_LINE_LOOP | gl_TRIANGLES.

(** The calls [update] makes on the WebGL context and on the shader
    program.  The data of [bufferData] is the array the [Float32Array] is
    made of; [vertexAttribPointer] has the attribute, the size, the stride
    and the offset. *)
Inductive gl_call : Type :=
  | gl_clear
  | uniforms_mapMatrix (m : mat4)
  | uniforms_alpha (a : Q)
  | gl_bindBuffer (b : gl_buffer)
  | gl_bufferData (data : list (option Q))
  | gl_vertexAttribPointer (a : gl_attribute) (size stride offset : nat)
  | gl_drawArrays (mode : gl_mode) (first count : nat).

(** [this.features_.polygons.fill_transparency], which nothing changes. *)
Definition fill_transparency : Q := 1 # 2.

Definition attribute_pointers : list gl_call :=
  [gl_vertexAttribPointer worldCoord 2 12 0; gl_vertexAttribPointer aColor 1 12 8].

(** The loop of [update] over [borderCounts]. *)
Fixpoint draw_borders (borderCounts : list nat) (seen : nat) : list gl_call :=
  match borderCounts with
  | [] => []
  | n :: rest => gl_drawArrays gl_LINE_LOOP seen n :: draw_borders rest (seen + n)
  end.

(** The layer with the other fields of the object that [update] uses. *)
Record webgl `{host : Host} : Type := {
  features_ : layer;
  tilebase : option string;
  zoomlock : option Z;
  tilecache_ : gset string;
  pixelsToWebGLMatrix_ : mat4;
  mapMatrix_ : mat4 }.

(** [if (this.tilebase)]: [null] and the empty string are not taken. *)
Definition has_tilebase (tilebase : option string) : bool :=
  match tilebase with
  | Some s => if decide (s = ""%string) then false else true
  | None => false
  end.

(** [WebGLLayer.prototype.update]: the object after the call, the urls
    requested, and the calls made on the WebGL context, in order. *)
Definition update `{host : Host} (Math_cos : Q -> Q) (map : map_t) (W : webgl)
  : webgl * list string * list gl_call :=
  let '(requests, tilecache) :=
    if has_tilebase (tilebase W)
    then loadTiles Math_cos map (tilebase W) (zoomlock W) (tilecache_ W)
    else ([], tilecache_ W) in
  let mapMatrix := update_mapMatrix (pixelsToWebGLMatrix_ W) (map_zoom map) (map_topLeft map) in
  let P := polygons (features_ W) in
  let Pt := points (features_ W) in
  let calls :=
    [gl_clear; uniforms_mapMatrix mapMatrix]
    ++ [uniforms_alpha fill_transparency; gl_bindBuffer polygons_buffer]
    ++ (if Polygons.changed P then [gl_bufferData (Polygons.floats P)] else [])
    ++ attribute_pointers
    ++ [gl_drawArrays gl_TRIANGLES 0 (Polygons.count P)]
    ++ [uniforms_alpha 1; gl_bindBuffer polygons_borderbuffer]
    ++ (if Polygons.changed P then [gl_bufferData (Polygons.borderFloats P)] else [])
    ++ attribute_pointers
    ++ draw_borders (Polygons.borderCounts P) 0
    ++ [gl_bindBuffer points_buffer]
    ++ (if Points.changed Pt then [gl_bufferData (Points.floats Pt)] else [])
    ++ attribute_pointers
    ++ [gl_drawArrays gl_POINTS 0 (Points.count Pt)] in
  let L :=
    {| points := {| Points.defaultColor := Points.defaultColor Pt;
                    Points.floats := Points.floats Pt;
                    Points.count := Points.count Pt;
                    Points.changed := false |};
       polygons := {| Polygons.floats := Polygons.floats P;
                      Polygons.count := Polygons.count P;
                      Polygons.borderFloats := Polygons.borderFloats P;
                      Polygons.borderCount := Polygons.borderCount P;
                      Polygons.borderCounts := Polygons.borderCounts P;
                      Polygons.changed := false |};
       tesselator_ := tesselator_ (features_ W);
       added := added (features_ W);
       scheduled := scheduled (features_ W) |} in
  ({| features_ := L; tilebase := tilebase W; zoomlock := zoomlock W;
      tilecache_ := tilecache; pixelsToWebGLMatrix_ := pixelsToWebGLMatrix_ W;
      mapMatrix_ := mapMatrix |},
   requests, calls).

(** The data uploaded and the draws among the calls, in order. *)
Fixpoint uploads (calls : list gl_call) : list (list (option Q)) :=
  match calls with
  | [] => []
  | gl_bufferData data :: rest => data :: uploads rest
  | _ :: rest => uploads rest
  end.



(** A view to evaluate with, and a stand-in for [Math.cos]. *)
Definition one_cos : Q -> Q := fun _ => 1.

Definition quarter_view : map_t :=
  {| map_zoom := 2;
     map_southWest := {| lat := 0; lng := -(90) |};
     map_northEast := {| lat := 0; lng := 90 |};
     map_topLeft := (64, 128) |}.

(** The same view with its corners exchanged. *)
Definition inverted_view : map_t :=
  {| map_zoom := 2;
     map_southWest := {| lat := 0; lng := 90 |};
     map_northEast := {| lat := 0; lng := -(90) |};
     map_topLeft := (64, 128) |}.


(** * Properties *)

(** ** Numbers *)

Lemma js_gt_true (a b : Q) : js_gt a b = true <-> b < a.
Proof.
  unfold js_gt. rewrite negb_true_iff. split.
  - intros H. apply Qnot_le_lt. intros Hle.
    apply Qle_bool_iff in Hle. congruence.
  - intros H. destruct (Qle_bool a b) eqn:E; [|reflexivity].
    apply Qle_bool_iff in E. exfalso. apply (Qlt_not_le _ _ H E).
Qed.

Lemma js_gt_false (a b : Q) : js_gt a b = false <-> a <= b.
Proof.
  unfold js_gt. rewrite negb_false_iff. apply Qle_bool_iff.
Qed.

Lemma Qfloor_unique (x : Q) (z : Z) :
  inject_Z z <= x -> x < inject_Z z + 1 -> Qfloor x = z.
Proof.
  intros Hlo Hhi.
  pose proof (Qfloor_le x) as Hfl.
  pose proof (Qlt_floor x) as Hfu.
  assert (H1 : inject_Z z < inject_Z (Qfloor x + 1)) by (eapply Qle_lt_trans; eassumption).
  assert (H2 : inject_Z (Qfloor x) < inject_Z (z + 1)).
  { eapply Qle_lt_trans; [eassumption|]. rewrite inject_Z_plus. exact Hhi. }
  rewrite <- Zlt_Qlt in H1, H2. lia.
Qed.

(** ** Projector *)

(** C9.  [lngToX_ lng] is [256 * (lng / 360 + 0.5)] when [lng <= 180] and
    [256 * (lng / 360 - 0.5)] otherwise.  The projection jumps at the
    antimeridian, where it is 256 and beyond which it restarts near 0, and
    nowhere else: on each side of 180 it is affine in [lng]. *)
Theorem lngToX_antimeridian (lng : Q) :
  (lng <= 180 -> lngToX_ lng = 256 * (lng / 360 + (1#2))) /\
  (~ lng <= 180 -> lngToX_ lng = 256 * (lng / 360 - (1#2))) /\
  lngToX_ 180 == 256 /\
  (180 < lng -> lngToX_ 180 - lngToX_ lng == 256 - (lng - 180) * (256 / 360)) /\
  (forall eps, 0 < eps -> exists l, 180 < l /\ l < 180 + eps /\ 255 < lngToX_ 180 - lngToX_ l) /\
  (forall l, (l <= 180 <-> lng <= 180) ->
     lngToX_ lng - lngToX_ l == (lng - l) * (256 / 360)).
Proof.
  assert (Hle : forall l, l <= 180 -> lngToX_ l = 256 * (l / 360 + (1#2))).
  { intros l H. unfold lngToX_. apply js_gt_false in H. now rewrite H. }
  assert (Hgt : forall l, 180 < l -> lngToX_ l = 256 * (l / 360 - (1#2))).
  { intros l H. unfold lngToX_. apply js_gt_true in H. now rewrite H. }
  split; [|split; [|split; [|split; [|split]]]].
  - apply Hle.
  - intros H. apply Hgt. now apply Qnot_le_lt.
  - reflexivity.
  - intros H. rewrite (Hgt _ H), (Hle 180) by discriminate. field.
  - intros eps Heps.
    exists (180 + Qmin eps 1 * (1#2)).
    assert (Hm : 0 < Qmin eps 1) by (apply Q.min_glb_lt; [assumption | reflexivity]).
    assert (Hm1 : Qmin eps 1 <= 1) by apply Q.le_min_r.
    assert (Hm2 : Qmin eps 1 <= eps) by apply Q.le_min_l.
    assert (H180 : 180 < 180 + Qmin eps 1 * (1#2)) by lra.
    split; [exact H180|]. split; [lra|].
    rewrite (Hgt _ H180), (Hle 180) by discriminate.
    assert (E : 256 * (180 / 360 + (1 # 2)) - 256 * ((180 + Qmin eps 1 * (1#2)) / 360 - (1 # 2))
                == 256 - Qmin eps 1 * (256 # 720)) by field.
    rewrite E. lra.
  - intros l Hl.
    destruct (Qlt_le_dec 180 lng) as [H|H].
    + assert (H' : 180 < l).
      { apply Qnot_le_lt. intros C. apply Hl in C. apply (Qlt_not_le _ _ H C). }
      rewrite (Hgt _ H), (Hgt _ H'). field.
    + rewrite (Hle _ H), (Hle l) by now apply Hl. field.
Qed.

(** At 90 and 270 degrees. *)
Lemma lngToX_antimeridian_witness :
  lngToX_ 90 = 256 * (90 / 360 + (1#2)) /\ lngToX_ 270 = 256 * (270 / 360 - (1#2)).
Proof.
  split.
  - apply (proj1 (lngToX_antimeridian 90)). discriminate.
  - apply (proj1 (proj2 (lngToX_antimeridian 270))). intros H. now apply H.
Defined.

(** ** Colour codec *)

Lemma quantize_rounds (c : Q) : rounds_to (c * 128) (quantize c).
Proof.
  unfold rounds_to, quantize. change c_precision with 128.
  pose proof (Qfloor_le (c * 128 + (1#2))) as Hl.
  pose proof (Qlt_floor (c * 128 + (1#2))) as Hu.
  rewrite inject_Z_plus in Hu. change (inject_Z 1) with 1 in Hu.
  split; lra.
Qed.

Lemma quantize_comp (c c' : Q) : c == c' -> quantize c = quantize c'.
Proof. intros H. unfold quantize. apply Qfloor_comp. now rewrite H. Qed.

Lemma quantize_grid (q : Z) : quantize (inject_Z q / 128) = q.
Proof.
  unfold quantize. change c_precision with 128.
  apply Qfloor_unique.
  - assert (E : inject_Z q / 128 * 128 == inject_Z q) by field. lra.
  - assert (E : inject_Z q / 128 * 128 == inject_Z q) by field. lra.
Qed.

Lemma quantize_bounds (c : Q) : 0 <= c -> c <= 1 -> (0 <= quantize c <= 128)%Z.
Proof.
  intros H0 H1. destruct (quantize_rounds c) as [Hl Hu].
  split.
  - assert (H : inject_Z (-1) < inject_Z (quantize c)).
    { change (inject_Z (-1)) with (-(1)). lra. }
    rewrite <- Zlt_Qlt in H. lia.
  - assert (H : inject_Z (quantize c) < inject_Z 129).
    { change (inject_Z 129) with 129. lra. }
    rewrite <- Zlt_Qlt in H. lia.
Qed.

Lemma packColor_quantize (c : color) :
  packColor c ==
  inject_Z (quantize (c0 c) + quantize (c2 c) * 129 + quantize (c1 c) * 129 ^ 2).
Proof.
  unfold packColor, Math_floor. fold (quantize (c0 c)) (quantize (c1 c)) (quantize (c2 c)).
  change c_precisionp1 with (inject_Z 129).
  rewrite !inject_Z_plus, !inject_Z_mult.
  change (inject_Z (129 ^ 2)) with (inject_Z 129 * inject_Z 129).
  ring.
Qed.

Lemma Qfloor_div_pos (p : Z) (d : positive) :
  Qfloor (inject_Z p / inject_Z (Zpos d)) = (p / Zpos d)%Z.
Proof.
  unfold Qdiv, Qinv, Qmult, inject_Z, Qfloor. simpl.
  now rewrite Z.mul_1_r.
Qed.

Lemma glsl_mod_Z (p : Z) (d : positive) :
  glsl_mod (inject_Z p) (inject_Z (Zpos d)) == inject_Z (p mod Zpos d).
Proof.
  unfold glsl_mod, Math_floor. rewrite Qfloor_div_pos.
  rewrite Z.mod_eq by discriminate.
  unfold Zminus. rewrite inject_Z_plus, inject_Z_opp, inject_Z_mult. ring.
Qed.

Lemma mixed_radix_digits (qr qg qb : Z) :
  level qr -> level qg -> level qb ->
  let p := (qr + qb * 129 + qg * 129 ^ 2)%Z in
  (p mod 129 = qr /\ (p / 129) mod 129 = qb /\ p / (129 * 129) = qg)%Z.
Proof.
  unfold level. intros Hr Hg Hb. cbv zeta. repeat split.
  - symmetry. apply (Z.mod_unique _ _ (qb + qg * 129)); lia.
  - assert (E : ((qr + qb * 129 + qg * 129 ^ 2) / 129 = qb + qg * 129)%Z).
    { symmetry. apply (Z.div_unique _ _ _ qr); lia. }
    rewrite E. symmetry. apply (Z.mod_unique _ _ qg); lia.
  - symmetry. apply (Z.div_unique _ _ _ (qr + qb * 129)); lia.
Qed.

(** C4.  [packColor] rounds each channel times 128 to the nearest integer and
    combines the three in base 129, red lowest, then blue, then green.  It
    gives equal results on equal colours, is injective on the 129^3 colours
    of the quantisation grid, and on them the digits of the packed number in
    base 129 are the quantised channels, which is also what the shader's
    [float2color] recovers. *)
Theorem packColor_mixed_radix :
  (forall c : color, exists qr qg qb : Z,
      rounds_to (c0 c * 128) qr /\ rounds_to (c1 c * 128) qg /\
      rounds_to (c2 c * 128) qb /\
      packColor c == inject_Z (qr + qb * 129 + qg * 129 ^ 2)) /\
  (forall c c' : color, color_eq c c' -> packColor c == packColor c') /\
  (forall qr qg qb qr' qg' qb' : Z,
      level qr -> level qg -> level qb -> level qr' -> level qg' -> level qb' ->
      packColor (grid_color qr qg qb) == packColor (grid_color qr' qg' qb') ->
      qr = qr' /\ qg = qg' /\ qb = qb') /\
  (forall qr qg qb : Z, level qr -> level qg -> level qb ->
      exists p : Z,
        packColor (grid_color qr qg qb) == inject_Z p /\
        (p mod 129 = qr /\ (p / 129) mod 129 = qb /\ p / (129 * 129) = qg)%Z /\
        color_eq (float2color (packColor (grid_color qr qg qb))) (grid_color qr qg qb)).
Proof.
  assert (Hgrid : forall qr qg qb,
             packColor (grid_color qr qg qb) == inject_Z (qr + qb * 129 + qg * 129 ^ 2)).
  { intros. rewrite packColor_quantize. unfold grid_color. simpl.
    now rewrite !quantize_grid. }
  split; [|split; [|split]].
  - intros c. exists (quantize (c0 c)), (quantize (c1 c)), (quantize (c2 c)).
    repeat (split; [apply quantize_rounds|]). apply packColor_quantize.
  - intros c c' (H0 & H1 & H2). rewrite !packColor_quantize.
    now rewrite (quantize_comp _ _ H0), (quantize_comp _ _ H1), (quantize_comp _ _ H2).
  - intros qr qg qb qr' qg' qb' Hr Hg Hb Hr' Hg' Hb' H.
    rewrite !Hgrid in H. apply (proj1 (inject_Z_injective _ _)) in H.
    destruct (mixed_radix_digits qr qg qb Hr Hg Hb) as (E0 & E1 & E2).
    destruct (mixed_radix_digits qr' qg' qb' Hr' Hg' Hb') as (E0' & E1' & E2').
    rewrite H in E0, E1, E2. rewrite <- E0, <- E1, <- E2. auto.
  - intros qr qg qb Hr Hg Hb.
    set (p := (qr + qb * 129 + qg * 129 ^ 2)%Z).
    assert (Hm : (p mod 129 = qr /\ (p / 129) mod 129 = qb /\ p / (129 * 129) = qg)%Z)
      by apply (mixed_radix_digits qr qg qb Hr Hg Hb).
    exists p. split; [apply Hgrid|]. split; [exact Hm|].
    destruct Hm as (Hm0 & Hm1 & Hm2).
    pose proof (Hgrid qr qg qb) as Hv. fold p in Hv.
    set (v := packColor (grid_color qr qg qb)) in *. clearbody v.
    assert (HF1 : Math_floor (v / inject_Z 129) = inject_Z (p / 129)).
    { unfold Math_floor. f_equal.
      rewrite <- (Qfloor_div_pos p 129). apply Qfloor_comp. now rewrite Hv. }
    assert (HF2 : Math_floor (v / inject_Z 16641) = inject_Z (p / 16641)).
    { unfold Math_floor. f_equal.
      rewrite <- (Qfloor_div_pos p 16641). apply Qfloor_comp. now rewrite Hv. }
    unfold color_eq, float2color, grid_color. simpl.
    change c_precisionp1 with (inject_Z 129).
    change (inject_Z 129 * inject_Z 129) with (inject_Z 16641).
    change c_precision with 128.
    split; [|split].
    + unfold glsl_mod. rewrite HF1, Hv.
      pose proof (glsl_mod_Z p 129) as G. unfold glsl_mod, Math_floor in G.
      rewrite Qfloor_div_pos in G. rewrite G, Hm0. reflexivity.
    + rewrite HF2. change 16641%Z with (129 * 129)%Z. now rewrite Hm2.
    + rewrite HF1. rewrite glsl_mod_Z, Hm1. reflexivity.
Qed.

(** Pure green and pure blue pack differently and unpack to themselves. *)
Lemma packColor_mixed_radix_witness :
  (packColor (grid_color 0 128 0) == packColor (grid_color 0 0 128) -> False) /\
  exists p : Z,
    packColor (grid_color 0 128 0) == inject_Z p /\
    (p mod 129 = 0 /\ (p / 129) mod 129 = 0 /\ p / (129 * 129) = 128)%Z /\
    color_eq (float2color (packColor (grid_color 0 128 0))) (grid_color 0 128 0).
Proof.
  assert (L0 : level 0) by (split; discriminate).
  assert (L128 : level 128) by (split; discriminate).
  split.
  - intros H.
    destruct (proj1 (proj2 (proj2 packColor_mixed_radix))
                0%Z 128%Z 0%Z 0%Z 0%Z 128%Z L0 L128 L0 L0 L0 L128 H) as (_ & Hg & _).
    discriminate Hg.
  - exact (proj2 (proj2 (proj2 packColor_mixed_radix)) 0%Z 128%Z 0%Z L0 L128 L0).
Defined.

(** C10.  On channels between 0 and 1, [packColor] is a whole number from 0 to
    129^3 - 1 = 2146688, which is below 2^24, so that the packed number is
    a binary32 number: storing it in a [Float32Array] keeps it as it is. *)
Theorem packColor_range (c : color) :
  0 <= c0 c <= 1 -> 0 <= c1 c <= 1 -> 0 <= c2 c <= 1 ->
  exists p : Z,
    packColor c == inject_Z p /\
    (0 <= p <= 2146688)%Z /\
    (2146688 = 129 ^ 3 - 1)%Z /\ (2146688 < 2 ^ 24)%Z /\
    binary32_representable (packColor c).
Proof.
  intros [Hr0 Hr1] [Hg0 Hg1] [Hb0 Hb1].
  pose proof (quantize_bounds _ Hr0 Hr1) as Br.
  pose proof (quantize_bounds _ Hg0 Hg1) as Bg.
  pose proof (quantize_bounds _ Hb0 Hb1) as Bb.
  set (p := (quantize (c0 c) + quantize (c2 c) * 129 + quantize (c1 c) * 129 ^ 2)%Z).
  assert (Hp : (0 <= p <= 2146688)%Z) by (subst p; lia).
  exists p. split; [apply packColor_quantize|].
  split; [exact Hp|]. split; [reflexivity|]. split; [reflexivity|].
  exists p, 0%Z. split; [|split].
  - change (2 ^ 24)%Z with 16777216%Z. lia.
  - lia.
  - rewrite packColor_quantize. fold p. simpl. ring.
Qed.

(** The default point colour. *)
Lemma packColor_range_witness :
  exists p : Z,
    packColor (Color 1 0 0) == inject_Z p /\
    (0 <= p <= 2146688)%Z /\
    (2146688 = 129 ^ 3 - 1)%Z /\ (2146688 < 2 ^ 24)%Z /\
    binary32_representable (packColor (Color 1 0 0)).
Proof.
  apply (packColor_range (Color 1 0 0)); simpl; split; discriminate.
Defined.

(** ** View transform *)

Lemma Math_pow2_succ (zoom : Z) : Math_pow2 (zoom + 1) == 2 * Math_pow2 zoom.
Proof.
  unfold Math_pow2. rewrite Qpower_plus by discriminate.
  change (2 ^ 1) with 2. ring.
Qed.

(** C8.  [update] starts from the base matrix, multiplies the x and y columns
    by [2^zoom] and adds to the last column the scaled columns times the
    negated offset; a world point [(x, y)] thus goes where the base matrix
    sends [2^zoom * (x - offset.x), 2^zoom * (y - offset.y)].  At zoom 0
    with a zero offset the result is the base matrix, and one more level
    of zoom doubles the scale and the scaled columns. *)
Theorem update_mapMatrix_transform (base : mat4) (zoom : Z) (offset : Q * Q) :
  let s := 2 ^ zoom in
  let ox := fst offset in
  let oy := snd offset in
  let M := update_mapMatrix base zoom offset in
  M = {| m_0 := m_0 base * s; m_1 := m_1 base * s;
         m_2 := m_2 base * s; m_3 := m_3 base * s;
         m_4 := m_4 base * s; m_5 := m_5 base * s;
         m_6 := m_6 base * s; m_7 := m_7 base * s;
         m_8 := m_8 base; m_9 := m_9 base; m_10 := m_10 base; m_11 := m_11 base;
         m_12 := m_12 base + (m_0 base * s * - ox + m_4 base * s * - oy);
         m_13 := m_13 base + (m_1 base * s * - ox + m_5 base * s * - oy);
         m_14 := m_14 base + (m_2 base * s * - ox + m_6 base * s * - oy);
         m_15 := m_15 base + (m_3 base * s * - ox + m_7 base * s * - oy) |} /\
  (forall x y : Q,
      vec4_eq (mat4_apply M (x, y, 0, 1))
              (mat4_apply base (s * (x - ox), s * (y - oy), 0, 1))) /\
  mat4_eq (update_mapMatrix base 0 (0, 0)) base /\
  Math_pow2 zoom = s /\
  2 ^ (zoom + 1) == 2 * s /\
  (let M' := update_mapMatrix base (zoom + 1) offset in
   (m_0 M' == 2 * m_0 M /\ m_1 M' == 2 * m_1 M /\
    m_2 M' == 2 * m_2 M /\ m_3 M' == 2 * m_3 M) /\
   (m_4 M' == 2 * m_4 M /\ m_5 M' == 2 * m_5 M /\
    m_6 M' == 2 * m_6 M /\ m_7 M' == 2 * m_7 M)).
Proof.
  cbv zeta. split; [reflexivity|].
  pose proof (Math_pow2_succ zoom) as Hsucc.
  unfold update_mapMatrix.
  change (Math_pow2 0) with 1.
  change (Math_pow2 (zoom + 1)) with (2 ^ (zoom + 1)) in *.
  change (Math_pow2 zoom) with (2 ^ zoom) in *.
  generalize dependent (2 ^ (zoom + 1)). generalize (2 ^ zoom).
  intros s s' Hsucc.
  split.
  { intros x y. unfold vec4_eq, mat4_apply; simpl. repeat split; ring. }
  split.
  { unfold mat4_eq; simpl. repeat split; ring. }
  split; [reflexivity|].
  split; [exact Hsucc|].
  simpl. rewrite !Hsucc. repeat split; ring.
Qed.

(** ** Tesselation callbacks *)

Local Open Scope nat_scope.
#[local] Arguments Nat.div : simpl never.

Lemma run_callbacks_normal (events : list tess_event) (a : list (option Q)) :
  first_error events = None ->
  exists pushed,
    run_callbacks events a = (a ++ pushed, Normal) /\
    length pushed = 3 * vertex_events events.
Proof.
  revert a. induction events as [|e events IH]; intros a Hne.
  - exists []. simpl. now rewrite app_nil_r.
  - destruct e; simpl in *; try discriminate; try (apply IH; assumption).
    destruct (IH (vertexCallback_ data a) Hne) as (pushed & E & Hlen).
    exists ([Some (fst (fst data)); Some (snd (fst data)); Some (packColor (Color 1 0 0))]
              ++ pushed).
    split.
    + rewrite E. unfold vertexCallback_. now rewrite <- app_assoc.
    + rewrite length_app, Hlen. simpl. lia.
Qed.

Lemma run_callbacks_error (events : list tess_event) (a : list (option Q)) (errno : Z) :
  first_error events = Some errno ->
  snd (run_callbacks events a) = Throw errno.
Proof.
  revert a. induction events as [|e events IH]; intros a Hne; [discriminate|].
  destruct e; simpl in *; try (apply IH; assumption).
  now inversion Hne.
Qed.

Lemma run_callbacks_completion (events : list tess_event) (a : list (option Q)) :
  snd (run_callbacks events a)
  = match first_error events with Some errno => Throw errno | None => Normal end.
Proof.
  destruct (first_error events) as [errno|] eqn:E.
  - now apply run_callbacks_error.
  - destruct (run_callbacks_normal events a E) as (pushed & -> & _). reflexivity.
Qed.

Section LayerFacts.
Context `{host : Host}.

Lemma length_border_points (coordinates : list (list position)) :
  length (concat (map (fun contour => concat (map border_vertex contour)) coordinates))
  = 3 * polygon_vertices coordinates.
Proof.
  unfold polygon_vertices.
  induction coordinates as [|contour coordinates IH]; [reflexivity|].
  simpl. rewrite !length_app, IH.
  assert (E : length (concat (map border_vertex contour)) = 3 * length contour).
  { clear. induction contour as [|c contour IH]; [reflexivity|].
    simpl. rewrite IH. lia. }
  rewrite E. lia.
Qed.

(** What [processPolygon] does when no error callback is made. *)
Lemma processPolygon_normal (coordinates : list (list position)) (L : layer) :
  let r := tess_polygon (tesselator_ L) (map (map adj) coordinates) in
  first_error (fst r) = None ->
  exists fill border,
    length fill = 3 * vertex_events (fst r) /\
    length border = 3 * polygon_vertices coordinates /\
    processPolygon coordinates L =
      ({| points := points L;
          polygons :=
            {| Polygons.floats := Polygons.floats (polygons L) ++ fill;
               Polygons.count := Polygons.count (polygons L) + vertex_events (fst r);
               Polygons.borderFloats := Polygons.borderFloats (polygons L) ++ border;
               Polygons.borderCount :=
                 Polygons.borderCount (polygons L) + polygon_vertices coordinates;
               Polygons.borderCounts := Polygons.borderCounts (polygons L);
               Polygons.changed := Polygons.changed (polygons L) |};
          tesselator_ := snd r;
          added := added L;
          scheduled := scheduled L |}, Normal).
Proof.
  intros r Hne. subst r. unfold processPolygon.
  destruct (tess_polygon (tesselator_ L) (map (map adj) coordinates)) as [events t].
  simpl in Hne |- *.
  destruct (run_callbacks_normal events [] Hne) as (fill & E & Hlen).
  rewrite E. simpl.
  exists fill, (concat (map (fun contour => concat (map border_vertex contour)) coordinates)).
  split; [exact Hlen|]. split; [apply length_border_points|].
  unfold with_polygons, with_tesselator; simpl.
  rewrite Hlen, length_border_points.
  rewrite !(Nat.mul_comm 3), !Nat.div_mul by discriminate.
  reflexivity.
Qed.

(** What it does when one is made: the throw leaves the buffers alone. *)
Lemma processPolygon_throw (coordinates : list (list position)) (L : layer) (errno : Z) :
  let r := tess_polygon (tesselator_ L) (map (map adj) coordinates) in
  first_error (fst r) = Some errno ->
  processPolygon coordinates L = (with_tesselator L (snd r), Throw errno).
Proof.
  intros r He. subst r. unfold processPolygon.
  destruct (tess_polygon (tesselator_ L) (map (map adj) coordinates)) as [events t].
  simpl in He |- *.
  pose proof (run_callbacks_error events [] errno He) as E.
  destruct (run_callbacks events []) as [a c]. simpl in E. subst c. reflexivity.
Qed.

(** The two ways [processPolygon] can end. *)
Ltac polygon_cases coordinates L fill border Hfill Hborder :=
  let E := fresh "Herr" in
  let errno := fresh "errno" in
  destruct (first_error (fst (tess_polygon (tesselator_ L) (map (map adj) coordinates))))
    as [errno|] eqn:E;
  [ rewrite (processPolygon_throw coordinates L errno E)
  | destruct (processPolygon_normal coordinates L E)
      as (fill & border & Hfill & Hborder & ->) ].

Lemma polygon_vertices_ring (ring : list position) :
  polygon_vertices [ring] = length ring.
Proof. unfold polygon_vertices. simpl. now rewrite app_nil_r. Qed.

(** The loop over the parts of a MultiPolygon, when it ends normally. *)
Lemma multiPolygon_loop_normal (parts : list (list (list position))) :
  forall L L' : layer,
    multiPolygon_loop parts L = (L', Normal) ->
    points L' = points L /\ added L' = added L /\ scheduled L' = scheduled L /\
    Polygons.changed (polygons L') = Polygons.changed (polygons L) /\
    Polygons.borderCounts (polygons L')
      = Polygons.borderCounts (polygons L) ++ map polygon_vertices parts /\
    Polygons.borderCount (polygons L')
      = Polygons.borderCount (polygons L) + sum_list (map polygon_vertices parts) /\
    (exists border,
        Polygons.borderFloats (polygons L') = Polygons.borderFloats (polygons L) ++ border /\
        length border = 3 * sum_list (map polygon_vertices parts)) /\
    (exists fill,
        Polygons.floats (polygons L') = Polygons.floats (polygons L) ++ fill /\
        length fill = 3 * (Polygons.count (polygons L') - Polygons.count (polygons L))) /\
    Polygons.count (polygons L) <= Polygons.count (polygons L').
Proof.
  induction parts as [|part rest IH]; intros L L' H.
  - inversion H; subst. simpl. rewrite app_nil_r, Nat.add_0_r, Nat.sub_diag.
    repeat split; try reflexivity.
    + exists []. now rewrite app_nil_r.
    + exists []. now rewrite app_nil_r.
  - simpl in H. revert H.
    polygon_cases part L fill border Hfill Hborder; [discriminate|].
    intros H. apply IH in H. clear IH. simpl in H.
    destruct H as (Hp & Ha & Hs & Hc & Hcs & Hbc & (border' & Hbf & Hbl)
                   & (fill' & Hff & Hfl) & Hle).
    rewrite Hp, Ha, Hs, Hc, Hcs, Hbc, Hbf, Hff.
    rewrite Nat.add_sub' in *. simpl.
    repeat split; try reflexivity.
    + now rewrite <- app_assoc.
    + lia.
    + exists (border ++ border'). rewrite <- app_assoc. split; [reflexivity|].
      rewrite length_app. lia.
    + exists (fill ++ fill'). rewrite <- app_assoc. split; [reflexivity|].
      rewrite length_app. lia.
    + lia.
Qed.

(** ** Ingestion of polygons *)

(** C2, as the code has it.  Ingesting a Polygon feature with one ring of N
    positions and no holes, when no tesselation error is reported, adds one
    entry to [borderCounts], which is N, and stamps [indexStart] and
    [indexEnd] with the fill count before and after.  Their difference is
    the number of fill vertices the tesselation of the ring emitted, three
    for each triangle: 3 * T when it made T triangles, which is not T
    unless there is none. *)
Theorem polygon_ring_ingest (ring : list position) (props : properties_t)
    (L L' : layer) (f' : feature_t) :
  let events := fst (tess_polygon (tesselator_ L) [map adj ring]) in
  load_feature {| geometry := Polygon [ring]; properties := props |} L = (f', L', Normal) ->
  Polygons.borderCounts (polygons L')
    = Polygons.borderCounts (polygons L) ++ [length ring] /\
  indexStart (properties f') = Some (Polygons.count (polygons L)) /\
  indexEnd (properties f') = Some (Polygons.count (polygons L')) /\
  Polygons.count (polygons L') - Polygons.count (polygons L) = vertex_events events /\
  (forall T : nat, vertex_events events = 3 * T ->
     triangle_count events = T /\
     Polygons.count (polygons L') - Polygons.count (polygons L) = 3 * T /\
     (0 < T -> Polygons.count (polygons L') - Polygons.count (polygons L) <> T)).
Proof.
  intros events. unfold load_feature. simpl geometry. cbv zeta.
  polygon_cases [ring] L fill border Hfill Hborder; [discriminate|].
  intros H. inversion H; subst f' L'. clear H. simpl.
  rewrite Nat.add_sub', polygon_vertices_ring. fold events.
  repeat split.
  - lia.
  - assert (E : vertex_events events = T * 3) by lia.
    unfold triangle_count. rewrite E. apply Nat.div_mul. discriminate.
  - lia.
  - lia.
Qed.

(** C5.  Ingesting a MultiPolygon feature of k parts, when no tesselation error
    is reported, appends k entries to [borderCounts], the number of
    positions of each part in turn, stamps [indexStart] with the fill count
    before the first part and [indexEnd] with the fill count after the last;
    the fill vertices of all the parts are appended to the fill buffer in
    one run, as many as the two stamps are apart. *)
Theorem multipolygon_ingest (parts : list (list (list position))) (props : properties_t)
    (L L' : layer) (f' : feature_t) :
  load_feature {| geometry := MultiPolygon parts; properties := props |} L
    = (f', L', Normal) ->
  (exists entries,
      Polygons.borderCounts (polygons L') = Polygons.borderCounts (polygons L) ++ entries /\
      length entries = length parts /\
      entries = map polygon_vertices parts) /\
  indexStart (properties f') = Some (Polygons.count (polygons L)) /\
  indexEnd (properties f') = Some (Polygons.count (polygons L')) /\
  Polygons.count (polygons L) <= Polygons.count (polygons L') /\
  (exists fill,
      Polygons.floats (polygons L') = Polygons.floats (polygons L) ++ fill /\
      length fill = 3 * (Polygons.count (polygons L') - Polygons.count (polygons L))) /\
  Polygons.changed (polygons L') = true.
Proof.
  unfold load_feature. cbn [geometry]. cbn beta iota zeta.
  destruct (multiPolygon_loop parts L) as [L1 [|errno]] eqn:E;
    cbn beta iota; [|discriminate].
  intros H. inversion H; subst f' L'. clear H.
  apply multiPolygon_loop_normal in E.
  destruct E as (Hp & Ha & Hs & Hc & Hcs & Hbc & _ & Hfill & Hle).
  simpl. split; [|repeat split; assumption].
  exists (map polygon_vertices parts). split; [exact Hcs|].
  split; [apply length_map | reflexivity].
Qed.

(** ** The loop of [loadData] *)

Lemma loadData_loop_app (pre rest pre' : list feature_t) (L L1 : layer) :
  loadData_loop pre L = (pre', L1, Normal) ->
  loadData_loop (pre ++ rest) L =
    (pre' ++ fst (fst (loadData_loop rest L1)),
     snd (fst (loadData_loop rest L1)),
     snd (loadData_loop rest L1)).
Proof.
  revert pre' L. induction pre as [|f pre IH]; intros pre' L H.
  - inversion H; subst. simpl. now destruct (loadData_loop rest L1) as [[? ?] ?].
  - simpl in H |- *.
    destruct (load_feature f L) as [[f1 L2] [|errno]]; [|discriminate].
    destruct (loadData_loop pre L2) as [[pre1 L3] c] eqn:E.
    inversion H; subst. rewrite (IH _ _ E). reflexivity.
Qed.

(** The loop over the parts touches the polygon buffers and the tesselator
    only, however it ends. *)
Lemma multiPolygon_loop_frame (parts : list (list (list position))) (L : layer) :
  points (fst (multiPolygon_loop parts L)) = points L /\
  added (fst (multiPolygon_loop parts L)) = added L /\
  scheduled (fst (multiPolygon_loop parts L)) = scheduled L.
Proof.
  revert L. induction parts as [|part rest IH]; intros L; [now repeat split|].
  simpl. polygon_cases part L fill border Hfill Hborder; [now repeat split|].
  match goal with
  | |- context [multiPolygon_loop rest ?X] => destruct (IH X) as (Hp & Ha & Hs)
  end.
  simpl in *. now repeat split.
Qed.

Lemma load_feature_points_count (f : feature_t) (L : layer) :
  Points.count (points (snd (fst (load_feature f L))))
  = Points.count (points L) + point_features [f].
Proof.
  unfold load_feature. simpl point_features.
  destruct (geometry f) as [c|coordinates|parts|ty]; cbn beta iota zeta.
  - simpl. lia.
  - polygon_cases coordinates L fill border Hfill Hborder; simpl; lia.
  - destruct (multiPolygon_loop_frame parts L) as (E & _ & _).
    destruct (multiPolygon_loop parts L) as [L1 [|errno]]; simpl in *; rewrite E; lia.
  - simpl. lia.
Qed.

Lemma point_features_cons (f : feature_t) (rest : list feature_t) :
  point_features (f :: rest) = point_features [f] + point_features rest.
Proof. simpl. now destruct (geometry f). Qed.

Lemma loadData_loop_points_count (features : list feature_t) :
  forall (L L' : layer) (features' : list feature_t),
    loadData_loop features L = (features', L', Normal) ->
    Points.count (points L') = Points.count (points L) + point_features features.
Proof.
  induction features as [|f rest IH]; intros L L' features' H.
  - inversion H; subst. simpl. lia.
  - simpl in H. pose proof (load_feature_points_count f L) as Hf.
    destruct (load_feature f L) as [[f1 L1] [|errno]]; [|discriminate].
    destruct (loadData_loop rest L1) as [[rest1 L2] c] eqn:E.
    inversion H; subst. apply IH in E. cbn [fst snd] in Hf.
    rewrite point_features_cons. lia.
Qed.

(** ** Ingestion of points *)

Lemma point_features_app (a b : list feature_t) :
  point_features (a ++ b) = point_features a + point_features b.
Proof.
  induction a as [|f a IH]; [reflexivity|].
  simpl. destruct (geometry f); rewrite IH; reflexivity.
Qed.

Lemma load_feature_points_counted (f : feature_t) (L : layer) :
  points_counted L -> points_counted (snd (fst (load_feature f L))).
Proof.
  unfold points_counted, load_feature. intros HL.
  destruct (geometry f) as [c|coordinates|parts|ty] eqn:G; cbn beta iota zeta.
  - simpl. rewrite point_features_app, HL. simpl. rewrite G. lia.
  - polygon_cases coordinates L fill border Hfill Hborder; [exact HL|].
    simpl. rewrite point_features_app, HL. simpl. rewrite G. lia.
  - destruct (multiPolygon_loop_frame parts L) as (Hp & Ha & _).
    destruct (multiPolygon_loop parts L) as [L1 [|errno]]; simpl in *.
    + rewrite point_features_app, Hp, Ha, HL. simpl. rewrite G. lia.
    + now rewrite Hp, Ha.
  - exact HL.
Qed.

Lemma loadData_loop_points_counted (features : list feature_t) :
  forall L : layer,
    points_counted L -> points_counted (snd (fst (loadData_loop features L))).
Proof.
  induction features as [|f rest IH]; intros L HL; [exact HL|].
  simpl. pose proof (load_feature_points_counted f L HL) as Hf.
  destruct (load_feature f L) as [[f1 L1] [|errno]]; simpl in Hf.
  - specialize (IH L1 Hf). now destruct (loadData_loop rest L1) as [[? ?] ?].
  - exact Hf.
Qed.

Lemma run_operation_points_counted (op : operation) (L : layer) :
  points_counted L -> points_counted (run_operation op L).
Proof.
  intros HL. destruct op as [features|idx color|idxStart idxEnd color|color]; simpl.
  - unfold loadData. pose proof (loadData_loop_points_counted features L HL) as H.
    now destruct (loadData_loop features L) as [[fs L1] [|errno]].
  - exact HL.
  - exact HL.
  - exact HL.
Qed.

(** C6.  Ingesting a Point feature pushes three cells on the point buffer:
    the projected x, the projected y and the packed default point colour.
    It stamps [index] with the point count, counts the point and sets the
    points' dirty flag.  The count is the number of points ingested
    before: after a payload [pre] loaded into a layer, a point is stamped
    with that layer's count plus the number of Point features of [pre],
    and after any sequence of operations on a new layer the count is the
    number of points that were passed to [onAddFeature]. *)
Theorem point_ingest :
  (forall (coordinates : position) (props : properties_t) (L : layer),
      exists L' : layer,
        load_feature {| geometry := Point coordinates; properties := props |} L
          = ({| geometry := Point coordinates;
                properties := {| index := Some (Points.count (points L));
                                 indexStart := indexStart props;
                                 indexEnd := indexEnd props |} |},
             L', Normal) /\
        Points.floats (points L')
          = Points.floats (points L) ++
              [Some (lngToX_ (fst coordinates)); Some (latToY_ (snd coordinates));
               Some (packColor (Points.defaultColor (points L)))] /\
        length (Points.floats (points L')) = length (Points.floats (points L)) + 3 /\
        Points.count (points L') = S (Points.count (points L)) /\
        Points.changed (points L') = true /\
        polygons L' = polygons L) /\
  (forall (pre post pre' : list feature_t) (coordinates : position)
          (props : properties_t) (L L1 : layer),
      loadData_loop pre L = (pre', L1, Normal) ->
      exists (post' : list feature_t) (L2 : layer) (c : completion),
        loadData_loop
          (pre ++ {| geometry := Point coordinates; properties := props |} :: post) L
        = (pre' ++
             {| geometry := Point coordinates;
                properties :=
                  {| index := Some (Points.count (points L) + point_features pre);
                     indexStart := indexStart props;
                     indexEnd := indexEnd props |} |} :: post',
           L2, c)) /\
  (forall ops : list operation,
      let L := run_operations ops new_layer in
      Points.count (points L) = point_features (added L)).
Proof.
  split; [|split].
  - intros coordinates props L. eexists. split; [reflexivity|].
    simpl. rewrite length_app. simpl. repeat split; lia.
  - intros pre post pre' coordinates props L L1 H.
    rewrite (loadData_loop_app _ _ _ _ _ H).
    pose proof (loadData_loop_points_count _ _ _ _ H) as Hc.
    simpl. rewrite Hc.
    destruct (loadData_loop post _) as [[post' L2] c].
    exists post', L2, c. reflexivity.
  - intros ops. cbv zeta. unfold run_operations.
    assert (H0 : points_counted new_layer) by reflexivity.
    revert H0. generalize new_layer.
    induction ops as [|op ops IH]; intros L HL; [exact HL|].
    simpl. apply IH. now apply run_operation_points_counted.
Qed.

(** ** The border counts *)

Lemma multiPolygon_loop_border_invariant (parts : list (list (list position))) :
  forall L : layer,
    border_invariant L -> border_invariant (fst (multiPolygon_loop parts L)).
Proof.
  induction parts as [|part rest IH]; intros L HL; [exact HL|].
  simpl. polygon_cases part L fill border Hfill Hborder; [exact HL|].
  apply IH. unfold border_invariant in *. simpl.
  rewrite sum_list_with_app, length_app, Nat.add_sub'. simpl. lia.
Qed.

Lemma load_feature_border_invariant (f : feature_t) (L : layer) :
  border_invariant L -> border_invariant (snd (fst (load_feature f L))).
Proof.
  intros HL. unfold load_feature.
  destruct (geometry f) as [c|coordinates|parts|ty]; cbn beta iota zeta.
  - exact HL.
  - polygon_cases coordinates L fill border Hfill Hborder; [exact HL|].
    unfold border_invariant in *. simpl.
    rewrite sum_list_with_app, length_app, Nat.add_sub'. simpl. lia.
  - pose proof (multiPolygon_loop_border_invariant parts L HL) as H.
    destruct (multiPolygon_loop parts L) as [L1 [|errno]]; exact H.
  - exact HL.
Qed.

Lemma loadData_loop_border_invariant (features : list feature_t) :
  forall L : layer,
    border_invariant L -> border_invariant (snd (fst (loadData_loop features L))).
Proof.
  induction features as [|f rest IH]; intros L HL; [exact HL|].
  simpl. pose proof (load_feature_border_invariant f L HL) as Hf.
  destruct (load_feature f L) as [[f1 L1] [|errno]]; simpl in Hf.
  - specialize (IH L1 Hf). now destruct (loadData_loop rest L1) as [[? ?] ?].
  - exact Hf.
Qed.

Lemma run_operation_border_invariant (op : operation) (L : layer) :
  border_invariant L -> border_invariant (run_operation op L).
Proof.
  intros HL. destruct op as [features|idx color|idxStart idxEnd color|color]; simpl.
  - unfold loadData. pose proof (loadData_loop_border_invariant features L HL) as H.
    now destruct (loadData_loop features L) as [[fs L1] [|errno]].
  - exact HL.
  - exact HL.
  - exact HL.
Qed.

(** C7.  After any sequence of operations on a new layer, the entries of
    [borderCounts] add up to the length of the border buffer divided by 3,
    a length which is a multiple of 3.  Ingesting a feature, whatever its
    geometry and however the ingestion ends, preserves this. *)
Theorem border_counts_invariant :
  (forall ops : list operation,
      let L := run_operations ops new_layer in
      sum_list (Polygons.borderCounts (polygons L))
        = length (Polygons.borderFloats (polygons L)) / 3 /\
      length (Polygons.borderFloats (polygons L)) mod 3 = 0) /\
  (forall (f : feature_t) (L : layer),
      border_invariant L -> border_invariant (snd (fst (load_feature f L)))) /\
  (forall L : layer,
      border_invariant L <->
      (sum_list (Polygons.borderCounts (polygons L))
         = length (Polygons.borderFloats (polygons L)) / 3 /\
       length (Polygons.borderFloats (polygons L)) mod 3 = 0)).
Proof.
  assert (Hiff : forall L : layer,
      border_invariant L <->
      (sum_list (Polygons.borderCounts (polygons L))
         = length (Polygons.borderFloats (polygons L)) / 3 /\
       length (Polygons.borderFloats (polygons L)) mod 3 = 0)).
  { intros L. unfold border_invariant. split.
    - intros H. rewrite <- H. split.
      + rewrite Nat.mul_comm. symmetry. apply Nat.div_mul. discriminate.
      + rewrite Nat.mul_comm. apply Nat.Div0.mod_mul.
    - intros [H1 H2]. rewrite H1.
      pose proof (Nat.div_mod_eq (length (Polygons.borderFloats (polygons L))) 3). lia. }
  split; [|split; [apply load_feature_border_invariant | exact Hiff]].
  intros ops. cbv zeta. apply Hiff.
  unfold run_operations.
  assert (H0 : border_invariant new_layer) by reflexivity.
  revert H0. generalize new_layer.
  induction ops as [|op ops IH]; intros L HL; [exact HL|].
  simpl. apply IH. now apply run_operation_border_invariant.
Qed.

(** ** Tesselation errors *)

(** A feature whose ingestion throws is a Polygon or a MultiPolygon; it has
    its [indexStart] stamped and nothing else, and the layer keeps its
    points and its records of [onAddFeature] and [scheduleUpdate].  For a
    Polygon the polygon buffers are as before, and the throw is the first
    error callback of the tesselation. *)
Lemma load_feature_throw (f f1 : feature_t) (L L2 : layer) (errno : Z) :
  load_feature f L = (f1, L2, Throw errno) ->
  f1 = set_indexStart f (Polygons.count (polygons L)) /\
  points L2 = points L /\ added L2 = added L /\ scheduled L2 = scheduled L /\
  ((exists coordinates,
       geometry f = Polygon coordinates /\
       polygons L2 = polygons L /\
       first_error (fst (tess_polygon (tesselator_ L) (map (map adj) coordinates)))
         = Some errno) \/
   (exists parts, geometry f = MultiPolygon parts)).
Proof.
  unfold load_feature.
  destruct (geometry f) as [c|coordinates|parts|ty] eqn:G; cbn beta iota zeta;
    try discriminate.
  - polygon_cases coordinates L fill border Hfill Hborder; [|discriminate].
    intros H. inversion H; subst. simpl. repeat split.
    left. exists coordinates. now repeat split.
  - destruct (multiPolygon_loop_frame parts L) as (Hp & Ha & Hs).
    destruct (multiPolygon_loop parts L) as [L1 [|e]]; [discriminate|].
    intros H. inversion H; subst. simpl in *. repeat split; try assumption.
    right. now exists parts.
Qed.

(** C1, as the code has it.  When the tesselation of a Polygon feature of a
    payload reports an error, [errorCallback_] throws and [loadData] ends
    there with that exception: the features before it are ingested, the
    feature itself has its [indexStart] stamped and adds nothing to the
    buffers, and the features after it are not ingested; [onAddFeature] and
    [scheduleUpdate] are not called.  The same holds of any feature whose
    ingestion throws, which a MultiPolygon does at the first part whose
    tesselation reports an error: the load ends there, the features after
    it left as they came. *)
Theorem tesselation_error_aborts_load :
  (forall (pre post pre' : list feature_t) (coordinates : list (list position))
          (props : properties_t) (L L1 : layer) (errno : Z),
      let f := {| geometry := Polygon coordinates; properties := props |} in
      let r := tess_polygon (tesselator_ L1) (map (map adj) coordinates) in
      loadData_loop pre L = (pre', L1, Normal) ->
      first_error (fst r) = Some errno ->
      loadData (pre ++ f :: post) L
      = (pre' ++ set_indexStart f (Polygons.count (polygons L1)) :: post,
         with_tesselator L1 (snd r),
         Throw errno)) /\
  (forall (pre post pre' : list feature_t) (f f1 : feature_t)
          (L L1 L2 : layer) (errno : Z),
      loadData_loop pre L = (pre', L1, Normal) ->
      load_feature f L1 = (f1, L2, Throw errno) ->
      loadData (pre ++ f :: post) L = (pre' ++ f1 :: post, L2, Throw errno) /\
      f1 = set_indexStart f (Polygons.count (polygons L1)) /\
      points L2 = points L1 /\ added L2 = added L1 /\ scheduled L2 = scheduled L1).
Proof.
  assert (Habort : forall (pre post pre' : list feature_t) (f f1 : feature_t)
                          (L L1 L2 : layer) (errno : Z),
             loadData_loop pre L = (pre', L1, Normal) ->
             load_feature f L1 = (f1, L2, Throw errno) ->
             loadData (pre ++ f :: post) L = (pre' ++ f1 :: post, L2, Throw errno)).
  { intros pre post pre' f f1 L L1 L2 errno Hpre E.
    unfold loadData. rewrite (loadData_loop_app _ _ _ _ _ Hpre).
    cbn [loadData_loop]. rewrite E. reflexivity. }
  split.
  - intros pre post pre' coordinates props L L1 errno f r Hpre Herr.
    apply (Habort pre post pre' f _ L L1 _ errno Hpre).
    unfold load_feature, f. cbn [geometry]. cbn beta iota zeta.
    now rewrite (processPolygon_throw coordinates L1 errno Herr).
  - intros pre post pre' f f1 L L1 L2 errno Hpre E.
    split; [exact (Habort pre post pre' f f1 L L1 L2 errno Hpre E)|].
    destruct (load_feature_throw _ _ _ _ _ E) as (Hf & Hp & Ha & Hs & _).
    now repeat split.
Qed.

(** ** Recolouring *)

Lemma js_set_in_range (a : list (option Q)) (i : nat) (v : Q) :
  i < length a -> js_set a i v = <[i := Some v]> a.
Proof. intros H. unfold js_set. now rewrite decide_True. Qed.

(** The loop of [changePolyColor] when every write falls inside the array:
    of the cell [c] of the triple [k], it changes the third cell of the
    triples from [i] to [i + n - 1]. *)
Lemma changePolyColor_loop_in_range (color : color) (n : nat) :
  forall (i : nat) (floats : list (option Q)),
    (i + n) * 3 <= length floats ->
    length (changePolyColor_loop n i color floats) = length floats /\
    forall k c : nat, c < 3 ->
      changePolyColor_loop n i color floats !! (k * 3 + c)
      = if decide (c = 2 /\ i <= k < i + n) then Some (Some (packColor color))
        else floats !! (k * 3 + c).
Proof.
  induction n as [|n IH]; intros i floats Hlen.
  - split; [reflexivity|]. intros k c Hc. simpl.
    rewrite decide_False by lia. reflexivity.
  - simpl. rewrite js_set_in_range by lia.
    destruct (IH (S i) (<[i * 3 + 2 := Some (packColor color)]> floats)) as [Hl Hc].
    { rewrite length_insert. lia. }
    rewrite length_insert in Hl. split; [exact Hl|].
    intros k c Hc3. rewrite (Hc k c Hc3).
    destruct (decide (k = i /\ c = 2)) as [[-> ->]|Hne].
    + rewrite decide_False by lia. rewrite decide_True by lia.
      apply list_lookup_insert_eq. lia.
    + rewrite list_lookup_insert_ne by lia.
      repeat case_decide; try reflexivity; lia.
Qed.

(** What [changePolyColor] does on a range that lies inside the buffer: the
    colour cell of every triple from [idxStart] to [idxEnd], both
    included, is overwritten, and no other cell. *)
Lemma changePolyColor_inclusive (idxStart idxEnd : nat) (color : color) (L : layer) :
  idxStart <= idxEnd ->
  S idxEnd * 3 <= length (Polygons.floats (polygons L)) ->
  let L' := changePolyColor idxStart idxEnd color L in
  length (Polygons.floats (polygons L')) = length (Polygons.floats (polygons L)) /\
  (forall k c : nat, c < 3 ->
     Polygons.floats (polygons L') !! (k * 3 + c)
     = if decide (c = 2 /\ idxStart <= k <= idxEnd) then Some (Some (packColor color))
       else Polygons.floats (polygons L) !! (k * 3 + c)) /\
  Polygons.changed (polygons L') = true /\
  scheduled L' = S (scheduled L).
Proof.
  intros Hle Hlen. cbv zeta. unfold changePolyColor. simpl.
  destruct (changePolyColor_loop_in_range color (S idxEnd - idxStart) idxStart
              (Polygons.floats (polygons L))) as [Hl Hc]; [lia|].
  split; [exact Hl|]. split; [|split; reflexivity].
  intros k c Hc3. rewrite (Hc k c Hc3).
  repeat case_decide; try reflexivity; lia.
Qed.

End LayerFacts.

(** ** Evaluations *)

Local Open Scope Q_scope.
#[local] Existing Instance fan_host.

(** A ring of three positions is tesselated into one triangle, and the
    tesselation of [far_ring] reports an error. *)
Lemma fan_triangle_ring :
  triangle_count (fst (fan_polygon tt [map (adj (host := fan_host)) triangle_ring])) = 1%nat.
Proof. reflexivity. Qed.

Lemma fan_far_ring :
  first_error (fst (fan_polygon tt [map (adj (host := fan_host)) far_ring]))
  = Some GLU_TESS_COORD_TOO_LARGE.
Proof. vm_compute. reflexivity. Qed.

(** C1, the claim as it is written, fails: a payload of a polygon whose
    tesselation reports an error, followed by a point.  [loadData] throws;
    the point is not ingested (no cell in the point buffer, no [index]
    stamped, no [onAddFeature]), while alone it would be. *)
Lemma malformed_polygon_aborts_load :
  let bad := feature_of (Polygon [far_ring]) in
  let pt := feature_of (Point (0, 0)) in
  let r := loadData (host := fan_host) [bad; pt] new_layer in
  first_error (fst (fan_polygon tt [map (adj (host := fan_host)) far_ring]))
    = Some GLU_TESS_COORD_TOO_LARGE /\
  snd r = Throw GLU_TESS_COORD_TOO_LARGE /\
  fst (fst r) = [set_indexStart bad 0; pt] /\
  Points.floats (points (snd (fst r))) = [] /\
  Points.count (points (snd (fst r))) = 0%nat /\
  added (snd (fst r)) = [] /\
  Points.count (points (snd (fst (loadData (host := fan_host) [pt] new_layer)))) = 1%nat.
Proof. vm_compute. repeat split; reflexivity. Qed.

Lemma tesselation_error_aborts_load_witness :
  let pt := feature_of (Point (0, 0)) in
  let bad := feature_of (Polygon [far_ring]) in
  loadData (host := fan_host) ([] ++ bad :: [pt]) new_layer
  = ([] ++ set_indexStart bad (Polygons.count (polygons new_layer)) :: [pt],
     with_tesselator new_layer
       (snd (tess_polygon (tesselator_ new_layer) (map (map adj) [far_ring]))),
     Throw GLU_TESS_COORD_TOO_LARGE).
Proof.
  refine (proj1 tesselation_error_aborts_load
            [] [feature_of (Point (0, 0))] [] [far_ring] no_properties
            new_layer new_layer GLU_TESS_COORD_TOO_LARGE _ _).
  - reflexivity.
  - vm_compute. reflexivity.
Defined.

(** C2, the claim as it is written, fails: a triangle is tesselated into
    one triangle, which is N - 2 for N = 3, and the stamps are 3 apart. *)
Lemma polygon_range_not_triangle_count :
  let f := feature_of (Polygon [triangle_ring]) in
  let events := fst (fan_polygon tt [map (adj (host := fan_host)) triangle_ring]) in
  let r := load_feature (host := fan_host) f new_layer in
  snd r = Normal /\
  triangle_count events = 1%nat /\
  (length triangle_ring - 2 = 1)%nat /\
  indexStart (properties (fst (fst r))) = Some 0%nat /\
  indexEnd (properties (fst (fst r))) = Some 3%nat /\
  (3 - 0 <> triangle_count events)%nat.
Proof. vm_compute. repeat split; try reflexivity. discriminate. Qed.

Lemma polygon_ring_ingest_witness :
  let L := new_layer in
  let r := load_feature {| geometry := Polygon [square_ring]; properties := no_properties |} L in
  let L' := snd (fst r) in
  let f' := fst (fst r) in
  let events := fst (tess_polygon (tesselator_ L) [map adj square_ring]) in
  Polygons.borderCounts (polygons L')
    = Polygons.borderCounts (polygons L) ++ [length square_ring] /\
  indexStart (properties f') = Some (Polygons.count (polygons L)) /\
  indexEnd (properties f') = Some (Polygons.count (polygons L')) /\
  (Polygons.count (polygons L') - Polygons.count (polygons L) = vertex_events events)%nat /\
  (forall T : nat, vertex_events events = (3 * T)%nat ->
     triangle_count events = T /\
     (Polygons.count (polygons L') - Polygons.count (polygons L) = 3 * T)%nat /\
     ((0 < T)%nat ->
      Polygons.count (polygons L') - Polygons.count (polygons L) <> T)%nat).
Proof.
  refine (polygon_ring_ingest square_ring no_properties new_layer _ _ _).
  reflexivity.
Defined.

Lemma multipolygon_ingest_witness :
  let L := new_layer in
  let parts := [[triangle_ring]; [square_ring]] in
  let r := load_feature {| geometry := MultiPolygon parts; properties := no_properties |} L in
  let L' := snd (fst r) in
  let f' := fst (fst r) in
  (exists entries,
      Polygons.borderCounts (polygons L') = Polygons.borderCounts (polygons L) ++ entries /\
      length entries = length parts /\
      entries = map polygon_vertices parts) /\
  indexStart (properties f') = Some (Polygons.count (polygons L)) /\
  indexEnd (properties f') = Some (Polygons.count (polygons L')) /\
  (Polygons.count (polygons L) <= Polygons.count (polygons L'))%nat /\
  (exists fill,
      Polygons.floats (polygons L') = Polygons.floats (polygons L) ++ fill /\
      (length fill = 3 * (Polygons.count (polygons L') - Polygons.count (polygons L)))%nat) /\
  Polygons.changed (polygons L') = true.
Proof.
  refine (multipolygon_ingest [[triangle_ring]; [square_ring]] no_properties new_layer _ _ _).
  reflexivity.
Defined.

Lemma point_ingest_witness :
  let pre := [feature_of (Point (0, 0)); feature_of (Polygon [triangle_ring])] in
  let before := loadData_loop pre new_layer in
  exists (post' : list feature_t) (L2 : layer) (c : completion),
    loadData_loop
      (pre ++ {| geometry := Point (1, 1); properties := no_properties |} :: []) new_layer
    = (fst (fst before) ++
         {| geometry := Point (1, 1);
            properties :=
              {| index := Some (Points.count (points new_layer) + point_features pre)%nat;
                 indexStart := indexStart no_properties;
                 indexEnd := indexEnd no_properties |} |} :: post',
       L2, c).
Proof.
  refine (proj1 (proj2 point_ingest)
            [feature_of (Point (0, 0)); feature_of (Polygon [triangle_ring])] [] _
            (1, 1) no_properties new_layer
            (snd (fst (loadData_loop
                         [feature_of (Point (0, 0)); feature_of (Polygon [triangle_ring])]
                         new_layer))) _).
  reflexivity.
Defined.

Lemma border_counts_invariant_witness :
  border_invariant
    (snd (fst (load_feature (feature_of (Polygon [square_ring])) new_layer))).
Proof.
  refine (proj1 (proj2 border_counts_invariant) _ new_layer _).
  reflexivity.
Defined.

(** C3 at a failing input.  Two triangles are loaded; the first is stamped
    with the range from 0 to 3 and the second with the range from 3 to 6.
    Recolouring the first with its stamps overwrites the colour of the
    vertex 3 as well, which is the first of the second polygon.
    Recolouring the second with its stamps writes past the end of the
    buffer, which grows by three cells, two of them holes, and no longer
    has three cells to a counted vertex. *)
Theorem changePolyColor_overruns_range :
  let tri := feature_of (Polygon [triangle_ring]) in
  let r := loadData (host := fan_host) [tri; tri] new_layer in
  let L := snd (fst r) in
  let red := packColor (Color 1 0 0) in
  let blue := packColor (Color 0 0 1) in
  map (fun f => (indexStart (properties f), indexEnd (properties f))) (fst (fst r))
    = [(Some 0%nat, Some 3%nat); (Some 3%nat, Some 6%nat)] /\
  ~ red == blue /\
  Polygons.floats (polygons L) !! (3 * 3 + 2)%nat = Some (Some red) /\
  Polygons.floats (polygons (changePolyColor 0 3 (Color 0 0 1) L)) !! (3 * 3 + 2)%nat
    = Some (Some blue) /\
  (length (Polygons.floats (polygons L)) = 3 * Polygons.count (polygons L))%nat /\
  length (Polygons.floats (polygons L)) = 18%nat /\
  length (Polygons.floats (polygons (changePolyColor 3 6 (Color 0 0 1) L))) = 21%nat /\
  Polygons.floats (polygons (changePolyColor 3 6 (Color 0 0 1) L)) !! 18%nat = Some None.
Proof.
  vm_compute. repeat split; try reflexivity. discriminate.
Qed.

(** * Further properties *)

(** ** Projector: range, monotonicity and wrap of [lngToX_] *)

Lemma lngToX_le (lng : Q) : lng <= 180 -> lngToX_ lng = 256 * (lng / 360 + (1#2)).
Proof. intros H. unfold lngToX_. apply js_gt_false in H. now rewrite H. Qed.

Lemma lngToX_gt (lng : Q) : 180 < lng -> lngToX_ lng = 256 * (lng / 360 - (1#2)).
Proof. intros H. unfold lngToX_. apply js_gt_true in H. now rewrite H. Qed.

Lemma Qdiv_360 (x : Q) : x / 360 == x * (1 # 360).
Proof. field. Qed.

(** X1.  A longitude from -180 to 180 goes to a world x from 0 to 256, the
    two ends included, and [lngToX_] is strictly increasing on the
    longitudes up to 180 and on the longitudes beyond 180. *)
Theorem lngToX_range_monotone :
  (forall lng : Q, -(180) <= lng -> lng <= 180 ->
     0 <= lngToX_ lng /\ lngToX_ lng <= 256) /\
  lngToX_ (-(180)) == 0 /\ lngToX_ 180 == 256 /\
  (forall a b : Q, a < b -> b <= 180 -> lngToX_ a < lngToX_ b) /\
  (forall a b : Q, 180 < a -> a < b -> lngToX_ a < lngToX_ b).
Proof.
  split; [|split; [reflexivity|split; [reflexivity|split]]].
  - intros lng Hlo Hhi. rewrite (lngToX_le _ Hhi), Qdiv_360. split; lra.
  - intros a b Hab Hb.
    assert (Ha : a <= 180) by lra.
    rewrite (lngToX_le _ Ha), (lngToX_le _ Hb), !Qdiv_360. lra.
  - intros a b Ha Hab.
    assert (Hb : 180 < b) by lra.
    rewrite (lngToX_gt _ Ha), (lngToX_gt _ Hb), !Qdiv_360. lra.
Qed.

Lemma lngToX_range_monotone_witness :
  (0 <= lngToX_ 90 /\ lngToX_ 90 <= 256) /\ lngToX_ 10 < lngToX_ 20 /\
  lngToX_ 190 < lngToX_ 200.
Proof.
  split; [|split].
  - apply (proj1 lngToX_range_monotone 90); discriminate.
  - apply (proj1 (proj2 (proj2 (proj2 lngToX_range_monotone))) 10 20);
      [reflexivity | discriminate].
  - apply (proj2 (proj2 (proj2 (proj2 lngToX_range_monotone))) 190 200); reflexivity.
Defined.

(** X2.  East of the antimeridian the projection wraps: a longitude beyond
    180 and up to 540 has the world x of the longitude 360 less, which is
    above 0 and at most 256.  West of -180 it does not wrap: the world x is
    negative. *)
Theorem lngToX_wrap :
  (forall lng : Q, 180 < lng -> lng <= 540 ->
     lngToX_ lng == lngToX_ (lng - 360) /\ 0 < lngToX_ lng /\ lngToX_ lng <= 256) /\
  (forall lng : Q, lng < -(180) -> lngToX_ lng < 0).
Proof.
  split.
  - intros lng Hlo Hhi.
    assert (H' : lng - 360 <= 180) by lra.
    rewrite (lngToX_gt _ Hlo), (lngToX_le _ H'), !Qdiv_360.
    repeat split; [ring | lra | lra].
  - intros lng H.
    assert (H' : lng <= 180) by lra.
    rewrite (lngToX_le _ H'), Qdiv_360. lra.
Qed.

Lemma lngToX_wrap_witness :
  (lngToX_ 270 == lngToX_ (270 - 360) /\ 0 < lngToX_ 270 /\ lngToX_ 270 <= 256) /\
  lngToX_ (-(270)) < 0.
Proof.
  split.
  - apply (proj1 lngToX_wrap 270); [reflexivity | discriminate].
  - apply (proj2 lngToX_wrap (-(270))). reflexivity.
Defined.

(** ** Colour codec: the round trip through the shader *)

Lemma glsl_mod_comp (x x' y : Q) : x == x' -> glsl_mod x y == glsl_mod x' y.
Proof.
  intros H. unfold glsl_mod, Math_floor.
  assert (E : Qfloor (x / y) = Qfloor (x' / y)) by (apply Qfloor_comp; now rewrite H).
  now rewrite E, H.
Qed.

(** [float2color] on a whole number [p]: the digits of [p] in base 129. *)
Lemma float2color_digits (v : Q) (p : Z) :
  v == inject_Z p ->
  color_eq (float2color v)
    (Color (inject_Z (p mod 129) / 128)
           (inject_Z (p / (129 * 129)) / 128)
           (inject_Z ((p / 129) mod 129) / 128)).
Proof.
  intros Hv.
  assert (HF1 : Math_floor (v / inject_Z 129) = inject_Z (p / 129)).
  { unfold Math_floor. f_equal.
    rewrite <- (Qfloor_div_pos p 129). apply Qfloor_comp. now rewrite Hv. }
  assert (HF2 : Math_floor (v / inject_Z 16641) = inject_Z (p / 16641)).
  { unfold Math_floor. f_equal.
    rewrite <- (Qfloor_div_pos p 16641). apply Qfloor_comp. now rewrite Hv. }
  unfold color_eq, float2color. simpl.
  change c_precisionp1 with (inject_Z 129).
  change (inject_Z 129 * inject_Z 129) with (inject_Z 16641).
  change c_precision with 128.
  split; [|split].
  - rewrite (glsl_mod_comp _ _ _ Hv), glsl_mod_Z. reflexivity.
  - rewrite HF2. reflexivity.
  - rewrite HF1, glsl_mod_Z. reflexivity.
Qed.

Lemma quantize_close (c : Q) :
  -(1 # 256) <= inject_Z (quantize c) / 128 - c /\
  inject_Z (quantize c) / 128 - c <= 1 # 256.
Proof.
  destruct (quantize_rounds c) as [Hl Hu].
  assert (E : inject_Z (quantize c) / 128 == inject_Z (quantize c) * (1 # 128)) by field.
  rewrite E. split; lra.
Qed.

(** X3.  For channels between 0 and 1, unpacking the packed colour with the
    shader's [float2color] gives each channel back to within half a
    quantisation step, 1/256, and packing the unpacked colour gives the
    same number again. *)
Theorem packColor_round_trip (c : color) :
  0 <= c0 c <= 1 -> 0 <= c1 c <= 1 -> 0 <= c2 c <= 1 ->
  let c' := float2color (packColor c) in
  (-(1 # 256) <= c0 c' - c0 c /\ c0 c' - c0 c <= 1 # 256) /\
  (-(1 # 256) <= c1 c' - c1 c /\ c1 c' - c1 c <= 1 # 256) /\
  (-(1 # 256) <= c2 c' - c2 c /\ c2 c' - c2 c <= 1 # 256) /\
  packColor c' == packColor c.
Proof.
  intros [Hr0 Hr1] [Hg0 Hg1] [Hb0 Hb1]. cbv zeta.
  pose proof (quantize_bounds _ Hr0 Hr1) as Br.
  pose proof (quantize_bounds _ Hg0 Hg1) as Bg.
  pose proof (quantize_bounds _ Hb0 Hb1) as Bb.
  destruct (mixed_radix_digits _ _ _ Br Bg Bb) as (D0 & D1 & D2).
  destruct (float2color_digits _ _ (packColor_quantize c)) as (E0 & E1 & E2).
  cbn [c0 c1 c2] in E0, E1, E2. rewrite D0 in E0. rewrite D2 in E1. rewrite D1 in E2.
  split; [|split; [|split]].
  - rewrite E0. apply quantize_close.
  - rewrite E1. apply quantize_close.
  - rewrite E2. apply quantize_close.
  - etransitivity; [apply packColor_quantize|].
    symmetry. etransitivity; [apply packColor_quantize|].
    rewrite (quantize_comp _ _ E0), (quantize_comp _ _ E1), (quantize_comp _ _ E2).
    now rewrite !quantize_grid.
Qed.

Lemma packColor_round_trip_witness :
  let c := Color (1 # 3) (1 # 2) (9 # 10) in
  let c' := float2color (packColor c) in
  (-(1 # 256) <= c0 c' - c0 c /\ c0 c' - c0 c <= 1 # 256) /\
  (-(1 # 256) <= c1 c' - c1 c /\ c1 c' - c1 c <= 1 # 256) /\
  (-(1 # 256) <= c2 c' - c2 c /\ c2 c' - c2 c <= 1 # 256) /\
  packColor c' == packColor c.
Proof.
  apply (packColor_round_trip (Color (1 # 3) (1 # 2) (9 # 10)));
    simpl; split; discriminate.
Defined.

Lemma quantize_shift (c : Q) (k : Z) :
  quantize (c + inject_Z k / 128) = (quantize c + k)%Z.
Proof.
  unfold quantize. change c_precision with 128.
  pose proof (Qfloor_le (c * 128 + (1#2))) as Hl.
  pose proof (Qlt_floor (c * 128 + (1#2))) as Hu.
  rewrite inject_Z_plus in Hu. change (inject_Z 1) with 1 in Hu.
  assert (E : (c + inject_Z k / 128) * 128 + (1 # 2)
              == c * 128 + (1 # 2) + inject_Z k) by field.
  apply Qfloor_unique; rewrite E, inject_Z_plus; lra.
Qed.

(** X4.  [packColor] does not clamp its channels.  A channel is quantised
    to a whole number of 128ths whatever its size, so that 129 steps more
    of red pack to the same number as one step more of blue, and 129 steps
    more of blue as one step more of green: beyond the range from 0 to 1
    different colours share a packed number. *)
Theorem packColor_carries (c : color) :
  packColor (Color (c0 c + 129 / 128) (c1 c) (c2 c))
    == packColor (Color (c0 c) (c1 c) (c2 c + 1 / 128)) /\
  packColor (Color (c0 c) (c1 c) (c2 c + 129 / 128))
    == packColor (Color (c0 c) (c1 c + 1 / 128) (c2 c)) /\
  packColor (Color (c0 c + 1 / 128) (c1 c) (c2 c)) == packColor c + 1.
Proof.
  rewrite !packColor_quantize. simpl.
  change (129 / 128) with (inject_Z 129 / 128).
  change (1 / 128) with (inject_Z 1 / 128).
  rewrite !quantize_shift.
  repeat split; repeat (rewrite inject_Z_plus || rewrite inject_Z_mult);
    change (inject_Z (129 ^ 2)) with (129 * 129);
    change (inject_Z 129) with 129; change (inject_Z 1) with 1; ring.
Qed.

(** ** Matrices: what scaling and translating do, and how they compose *)

Ltac mat4_solve :=
  unfold mat4_eq, vec4_eq, mat4_apply, update_mapMatrix, resize_,
    scaleMatrix_, translateMatrix_;
  cbn [m_0 m_1 m_2 m_3 m_4 m_5 m_6 m_7 m_8 m_9 m_10 m_11 m_12 m_13 m_14 m_15 fst snd];
  repeat match goal with |- _ /\ _ => split end.

(** X5.  A matrix scaled by [scaleMatrix_] sends a vector where the matrix
    sends the vector with x and y scaled.  Scaling twice is scaling by
    the products, scaling by 1 changes nothing, and scaling by the
    inverses of non-zero factors undoes a scaling. *)
Theorem scaleMatrix_action :
  (forall (m : mat4) (sx sy x y z w : Q),
      vec4_eq (mat4_apply (scaleMatrix_ m sx sy) (x, y, z, w))
              (mat4_apply m (sx * x, sy * y, z, w))) /\
  (forall (m : mat4) (a b c d : Q),
      mat4_eq (scaleMatrix_ (scaleMatrix_ m a b) c d) (scaleMatrix_ m (a * c) (b * d))) /\
  (forall m : mat4, mat4_eq (scaleMatrix_ m 1 1) m) /\
  (forall (m : mat4) (sx sy : Q), ~ sx == 0 -> ~ sy == 0 ->
      mat4_eq (scaleMatrix_ (scaleMatrix_ m sx sy) (/ sx) (/ sy)) m).
Proof.
  split; [|split; [|split]].
  - intros. mat4_solve; ring.
  - intros. mat4_solve; ring.
  - intros. mat4_solve; ring.
  - intros m sx sy Hx Hy. mat4_solve; try reflexivity; field; assumption.
Qed.

Lemma scaleMatrix_action_witness :
  mat4_eq (scaleMatrix_ (scaleMatrix_ (resize_ 1 800 600) 4 8) (/ 4) (/ 8))
          (resize_ 1 800 600).
Proof.
  apply (proj2 (proj2 (proj2 scaleMatrix_action)) (resize_ 1 800 600) 4 8);
    discriminate.
Defined.

(** X6.  A matrix translated by [translateMatrix_] sends a vector where the
    matrix sends the vector moved by [tx], [ty] times its w.  Translating
    twice is translating by the sums, translating by 0 changes nothing,
    and translating back undoes a translation. *)
Theorem translateMatrix_action :
  (forall (m : mat4) (tx ty x y z w : Q),
      vec4_eq (mat4_apply (translateMatrix_ m tx ty) (x, y, z, w))
              (mat4_apply m (x + tx * w, y + ty * w, z, w))) /\
  (forall (m : mat4) (a b c d : Q),
      mat4_eq (translateMatrix_ (translateMatrix_ m a b) c d)
              (translateMatrix_ m (a + c) (b + d))) /\
  (forall m : mat4, mat4_eq (translateMatrix_ m 0 0) m) /\
  (forall (m : mat4) (tx ty : Q),
      mat4_eq (translateMatrix_ (translateMatrix_ m tx ty) (- tx) (- ty)) m).
Proof.
  split; [|split; [|split]]; intros; mat4_solve; ring.
Qed.

(** X7.  Scaling and translating do not commute, but exchange in a fixed
    way: translating a scaled matrix by [(tx, ty)] is scaling the matrix
    translated by [(sx * tx, sy * ty)].  So the matrix of [update] is also
    the base matrix translated by [- 2^zoom * offset] and then scaled. *)
Theorem translate_scale_exchange :
  (forall (m : mat4) (sx sy tx ty : Q),
      mat4_eq (translateMatrix_ (scaleMatrix_ m sx sy) tx ty)
              (scaleMatrix_ (translateMatrix_ m (sx * tx) (sy * ty)) sx sy)) /\
  (forall (base : mat4) (zoom : Z) (offset : Q * Q),
      mat4_eq (update_mapMatrix base zoom offset)
              (scaleMatrix_
                 (translateMatrix_ base (- (2 ^ zoom * fst offset))
                                        (- (2 ^ zoom * snd offset)))
                 (2 ^ zoom) (2 ^ zoom))).
Proof.
  split.
  - intros. mat4_solve; ring.
  - intros. unfold update_mapMatrix, Math_pow2. generalize (2 ^ zoom). intros s.
    mat4_solve; ring.
Qed.

(** X8.  The matrix of [resize_], for a canvas of non-zero width and height,
    sends the pixel [(x, y)] to the clip point
    [(2 * scale * x / width - 1, 1 - 2 * scale * y / height)]: the pixel
    [(0, 0)] to the corner [(-1, 1)], and with a non-zero resolution scale
    the pixel [(width / scale, height / scale)] to the corner [(1, -1)].
    With this base matrix, [update] puts the world point [offset] at the
    corner [(-1, 1)] at every zoom level. *)
Theorem resize_pixels_to_clip (resolutionScale canvasWidth canvasHeight : Q) :
  ~ canvasWidth == 0 -> ~ canvasHeight == 0 ->
  let base := resize_ resolutionScale canvasWidth canvasHeight in
  (forall x y z : Q,
      vec4_eq (mat4_apply base (x, y, z, 1))
              (2 * resolutionScale * x / canvasWidth - 1,
               1 - 2 * resolutionScale * y / canvasHeight, 0, 1)) /\
  vec4_eq (mat4_apply base (0, 0, 0, 1)) (-(1), 1, 0, 1) /\
  (~ resolutionScale == 0 ->
   vec4_eq (mat4_apply base
              (canvasWidth / resolutionScale, canvasHeight / resolutionScale, 0, 1))
           (1, -(1), 0, 1)) /\
  (forall (zoom : Z) (offset : Q * Q),
      vec4_eq (mat4_apply (update_mapMatrix base zoom offset)
                 (fst offset, snd offset, 0, 1))
              (-(1), 1, 0, 1)).
Proof.
  intros Hw Hh. cbv zeta. split; [|split; [|split]].
  - intros. mat4_solve; field; assumption.
  - mat4_solve; ring.
  - intros Hr. mat4_solve; field; auto.
  - intros zoom offset. unfold update_mapMatrix, Math_pow2.
    generalize (2 ^ zoom). intros s. mat4_solve; ring.
Qed.

Lemma resize_pixels_to_clip_witness :
  vec4_eq (mat4_apply (resize_ 2 800 600) (800 / 2, 600 / 2, 0, 1)) (1, -(1), 0, 1).
Proof.
  assert (Hw : ~ 800 == 0) by discriminate.
  assert (Hh : ~ 600 == 0) by discriminate.
  assert (Hr : ~ 2 == 0) by discriminate.
  exact (proj1 (proj2 (proj2 (resize_pixels_to_clip 2 800 600 Hw Hh))) Hr).
Defined.

(** ** Array writes *)

Local Open Scope nat_scope.

Lemma js_set_length (a : list (option Q)) (i : nat) (v : Q) :
  length (js_set a i v) = Nat.max (length a) (S i).
Proof.
  unfold js_set. case_decide.
  - rewrite length_insert. lia.
  - rewrite !length_app, length_replicate. simpl. lia.
Qed.

(** A cell of an array after [a[i] = v]: the cell [i] holds [v], the other
    cells of [a] are as before, and the cells from the end of [a] up to
    [i] are holes. *)
Lemma js_set_lookup (a : list (option Q)) (i j : nat) (v : Q) :
  js_set a i v !! j =
    if decide (j = i) then Some (Some v)
    else if decide (j < length a) then a !! j
    else if decide (j < i) then Some None
    else None.
Proof.
  unfold js_set. destruct (decide (i < length a)) as [Hin|Hout].
  - destruct (decide (j = i)) as [->|Hne].
    + now apply list_lookup_insert_eq.
    + rewrite list_lookup_insert_ne by congruence.
      repeat case_decide; try reflexivity; try lia; apply lookup_ge_None_2; lia.
  - destruct (decide (j = i)) as [->|Hne].
    + rewrite lookup_app_r by lia. rewrite lookup_app_r by (rewrite length_replicate; lia).
      rewrite length_replicate.
      replace (i - length a - (i - length a)) with 0 by lia. reflexivity.
    + destruct (decide (j < length a)) as [Hj|Hj].
      * now rewrite lookup_app_l by lia.
      * rewrite lookup_app_r by lia.
        destruct (decide (j < i)) as [Hji|Hji].
        -- rewrite lookup_app_l by (rewrite length_replicate; lia).
           apply lookup_replicate_2. lia.
        -- apply lookup_ge_None_2.
           rewrite length_app, length_replicate. simpl. lia.
Qed.

Lemma js_set_twice (a : list (option Q)) (i : nat) (v w : Q) :
  js_set (js_set a i v) i w = js_set a i w.
Proof.
  apply list_eq. intros j. rewrite !js_set_lookup, js_set_length.
  repeat case_decide; try reflexivity; lia.
Qed.

Lemma js_set_commute (a : list (option Q)) (i j : nat) (v w : Q) :
  i <> j -> js_set (js_set a i v) j w = js_set (js_set a j w) i v.
Proof.
  intros Hne. apply list_eq. intros k. rewrite !js_set_lookup, !js_set_length.
  repeat case_decide; try reflexivity; lia.
Qed.

Section Recolouring.
Context `{host : Host}.

(** X9.  [changePointColor] writes the packed colour in the third cell of
    the point [idx] and leaves every other cell of the buffer, the point
    count, the default colour and the polygons as they are; it sets the
    points' dirty flag and schedules one update.  For a point beyond the
    end of the buffer the buffer grows up to that cell, the cells in
    between being holes, and the count stays. *)
Theorem changePointColor_cells (idx : nat) (color : color) (L : layer) :
  let L' := changePointColor idx color L in
  let floats := Points.floats (points L) in
  let floats' := Points.floats (points L') in
  floats' !! (idx * 3 + 2) = Some (Some (packColor color)) /\
  length floats' = Nat.max (length floats) (idx * 3 + 3) /\
  (forall j, j < length floats -> j <> idx * 3 + 2 -> floats' !! j = floats !! j) /\
  (forall j, length floats <= j -> j < idx * 3 + 2 -> floats' !! j = Some None) /\
  Points.count (points L') = Points.count (points L) /\
  Points.defaultColor (points L') = Points.defaultColor (points L) /\
  Points.changed (points L') = true /\
  polygons L' = polygons L /\
  scheduled L' = S (scheduled L).
Proof.
  cbv zeta. unfold changePointColor. simpl.
  split; [|split; [|split; [|split]]]; try (repeat split; reflexivity).
  - rewrite js_set_lookup. now rewrite decide_True.
  - rewrite js_set_length. lia.
  - intros j Hj Hne. rewrite js_set_lookup.
    rewrite decide_False by assumption. now rewrite decide_True.
  - intros j Hj Hlt. rewrite js_set_lookup.
    rewrite decide_False by lia. rewrite decide_False by lia. now rewrite decide_True.
Qed.

(** X10.  Of two recolourings of the same point the later one wins, and
    recolourings of different points can be exchanged: the buffer is the
    same, inside the buffer and beyond its end. *)
Theorem changePointColor_order (L : layer) :
  (forall (idx : nat) (c1 c2 : color),
      Points.floats (points (changePointColor idx c2 (changePointColor idx c1 L)))
      = Points.floats (points (changePointColor idx c2 L))) /\
  (forall (i j : nat) (c1 c2 : color), i <> j ->
      Points.floats (points (changePointColor j c2 (changePointColor i c1 L)))
      = Points.floats (points (changePointColor i c1 (changePointColor j c2 L)))).
Proof.
  split.
  - intros. unfold changePointColor. simpl. apply js_set_twice.
  - intros i j c1 c2 Hne. unfold changePointColor. simpl. apply js_set_commute. lia.
Qed.

Lemma changePolyColor_loop_app (color : color) (n m : nat) :
  forall (i : nat) (floats : list (option Q)),
    changePolyColor_loop (n + m) i color floats
    = changePolyColor_loop m (i + n) color (changePolyColor_loop n i color floats).
Proof.
  induction n as [|n IH]; intros i floats.
  - simpl. now rewrite Nat.add_0_r.
  - simpl. rewrite IH. now replace (S i + n) with (i + S n) by lia.
Qed.

(** X11.  With [idxEnd] below [idxStart], [changePolyColor] changes no cell
    of the fill buffer, and still sets the polygons' dirty flag and
    schedules an update.  Two recolourings with the same colour of ranges
    that follow each other, from [a] to [b] and from [b + 1] to [c], leave
    the buffer that one recolouring from [a] to [c] leaves. *)
Theorem changePolyColor_ranges (color : color) (L : layer) :
  (forall idxStart idxEnd : nat, idxEnd < idxStart ->
      let L' := changePolyColor idxStart idxEnd color L in
      Polygons.floats (polygons L') = Polygons.floats (polygons L) /\
      Polygons.changed (polygons L') = true /\
      scheduled L' = S (scheduled L)) /\
  (forall a b c : nat, a <= S b -> b <= c ->
      Polygons.floats (polygons (changePolyColor (S b) c color (changePolyColor a b color L)))
      = Polygons.floats (polygons (changePolyColor a c color L))).
Proof.
  split.
  - intros idxStart idxEnd Hlt. cbv zeta. unfold changePolyColor. simpl.
    replace (S idxEnd - idxStart) with 0 by lia. now repeat split.
  - intros a b c Hab Hbc. unfold changePolyColor. simpl.
    replace (S c - a) with ((S b - a) + (S c - S b)) by lia.
    rewrite changePolyColor_loop_app.
    now replace (a + (S b - a)) with (S b) by lia.
Qed.

End Recolouring.

(** ** Loading: what a load keeps and what it adds *)

Section Loading.
Context `{host : Host}.

Ltac poly_cases coordinates L fill border Hfill Hborder :=
  let E := fresh "Herr" in
  let errno := fresh "errno" in
  destruct (first_error (fst (tess_polygon (tesselator_ L) (map (map adj) coordinates))))
    as [errno|] eqn:E;
  [ rewrite (processPolygon_throw coordinates L errno E)
  | destruct (processPolygon_normal coordinates L E)
      as (fill & border & Hfill & Hborder & ->) ].

Lemma grows_refl (L : layer) : grows L L.
Proof. unfold grows. repeat split; auto. Qed.

Lemma grows_trans (L1 L2 L3 : layer) : grows L1 L2 -> grows L2 L3 -> grows L1 L3.
Proof.
  unfold grows.
  intros (A1 & A2 & A3 & A4 & A5 & A6 & A7 & A8 & A9 & A10 & A11)
         (B1 & B2 & B3 & B4 & B5 & B6 & B7 & B8 & B9 & B10 & B11).
  repeat split; try (etransitivity; eassumption); auto; congruence.
Qed.

Lemma grows_processPolygon (coordinates : list (list position)) (L : layer) :
  grows L (fst (processPolygon coordinates L)).
Proof.
  poly_cases coordinates L fill border Hfill Hborder.
  - unfold grows. simpl. repeat split; auto.
  - unfold grows. simpl. repeat split; auto; try (apply prefix_app_r; reflexivity); lia.
Qed.

Lemma grows_push_borderCounts (n : nat) (L : layer) : grows L (push_borderCounts n L).
Proof.
  unfold grows. simpl. repeat split; auto. apply prefix_app_r. reflexivity.
Qed.

Lemma grows_multiPolygon_loop (parts : list (list (list position))) :
  forall L : layer, grows L (fst (multiPolygon_loop parts L)).
Proof.
  induction parts as [|part rest IH]; intros L; [apply grows_refl|].
  simpl. pose proof (grows_processPolygon part L) as Hp.
  destruct (processPolygon part L) as [L1 [|errno]]; simpl in Hp; [|exact Hp].
  eapply grows_trans; [exact Hp|].
  eapply grows_trans; [apply grows_push_borderCounts|]. apply IH.
Qed.

Lemma grows_load_feature (f : feature_t) (L : layer) :
  grows L (snd (fst (load_feature f L))).
Proof.
  unfold load_feature.
  destruct (geometry f) as [c|coordinates|parts|ty]; cbn beta iota zeta.
  - unfold grows. simpl. repeat split; auto; try (apply prefix_app_r; reflexivity).
  - pose proof (grows_processPolygon coordinates L) as Hp.
    destruct (processPolygon coordinates L) as [L1 [|errno]]; simpl in Hp; [|exact Hp].
    eapply grows_trans; [exact Hp|].
    unfold grows. simpl. repeat split; auto; apply prefix_app_r; reflexivity.
  - pose proof (grows_multiPolygon_loop parts L) as Hp.
    destruct (multiPolygon_loop parts L) as [L1 [|errno]]; simpl in Hp; [|exact Hp].
    eapply grows_trans; [exact Hp|].
    unfold grows. simpl. repeat split; auto. apply prefix_app_r. reflexivity.
  - apply grows_refl.
Qed.

Lemma grows_loadData_loop (features : list feature_t) :
  forall L : layer, grows L (snd (fst (loadData_loop features L))).
Proof.
  induction features as [|f rest IH]; intros L; [apply grows_refl|].
  simpl. pose proof (grows_load_feature f L) as Hf.
  destruct (load_feature f L) as [[f1 L1] [|errno]]; simpl in Hf; [|exact Hf].
  specialize (IH L1). destruct (loadData_loop rest L1) as [[rest1 L2] c].
  simpl in *. eapply grows_trans; eassumption.
Qed.

(** X12.  Whatever the payload and however the load ends, [loadData] only
    appends: each buffer, the border counts and the record of
    [onAddFeature] calls are extended at the end, so that what was there
    keeps its place; the counts do not go down, no dirty flag is cleared
    and the default point colour is kept. *)
Theorem loadData_appends (features : list feature_t) (L : layer) :
  grows L (snd (fst (loadData features L))).
Proof.
  unfold loadData. pose proof (grows_loadData_loop features L) as H.
  destruct (loadData_loop features L) as [[fs L1] [|errno]]; simpl in *; [|exact H].
  eapply grows_trans; [exact H|]. unfold grows. now repeat split.
Qed.

(** X13.  A payload with no Point, Polygon or MultiPolygon feature, the
    empty payload among them, is passed over: the features and the layer
    are left as they are, [onAddFeature] is not called, nothing is thrown,
    and the one effect of the load is the update it schedules. *)
Theorem loadData_unsupported (features : list feature_t) (L : layer) :
  Forall (fun f => supported f = false) features ->
  loadData features L = (features, scheduleUpdate L, Normal).
Proof.
  intros H. unfold loadData.
  assert (E : loadData_loop features L = (features, L, Normal)).
  { induction H as [|f rest Hf Hrest IH]; [reflexivity|].
    simpl. unfold load_feature. unfold supported in Hf.
    destruct (geometry f); try discriminate. now rewrite IH. }
  now rewrite E.
Qed.

Lemma load_feature_geometry (f : feature_t) (L : layer) :
  geometry (fst (fst (load_feature f L))) = geometry f.
Proof.
  unfold load_feature.
  destruct (geometry f) as [c|coordinates|parts|ty] eqn:G; cbn beta iota zeta.
  - exact G.
  - destruct (processPolygon coordinates L) as [L1 [|errno]]; exact G.
  - destruct (multiPolygon_loop parts L) as [L1 [|errno]]; exact G.
  - exact G.
Qed.

Lemma load_feature_added (f f' : feature_t) (L L' : layer) :
  load_feature f L = (f', L', Normal) ->
  added L' = added L ++ (if supported f' then [f'] else []).
Proof.
  intros H. pose proof (load_feature_geometry f L) as G. rewrite H in G. simpl in G.
  unfold supported. rewrite G. revert H. unfold load_feature.
  destruct (geometry f) as [c|coordinates|parts|ty]; cbn beta iota zeta.
  - intros H. inversion H; subst. reflexivity.
  - poly_cases coordinates L fill border Hfill Hborder; [discriminate|].
    intros H. inversion H; subst. reflexivity.
  - destruct (multiPolygon_loop_frame parts L) as (_ & Ha & _).
    destruct (multiPolygon_loop parts L) as [L1 [|errno]]; [|discriminate].
    intros H. inversion H; subst. simpl in *. now rewrite Ha.
  - intros H. inversion H; subst. now rewrite app_nil_r.
Qed.

(** X14.  A load does not change the geometry of a feature, only stamps
    it.  When it ends normally, [onAddFeature] was called once for each
    Point, Polygon and MultiPolygon feature of the payload, in the order
    of the payload, with the feature as stamped, and for no other. *)
Theorem onAddFeature_calls (features : list feature_t) (L : layer) :
  let r := loadData features L in
  map geometry (fst (fst r)) = map geometry features /\
  (snd r = Normal ->
   added (snd (fst r)) = added L ++ List.filter supported (fst (fst r))).
Proof.
  cbv zeta. unfold loadData.
  assert (H : map geometry (fst (fst (loadData_loop features L))) = map geometry features /\
              (snd (loadData_loop features L) = Normal ->
               added (snd (fst (loadData_loop features L)))
               = added L ++ List.filter supported (fst (fst (loadData_loop features L))))).
  { revert L. induction features as [|f rest IH]; intros L.
    - simpl. split; [reflexivity|]. intros _. now rewrite app_nil_r.
    - simpl. pose proof (load_feature_geometry f L) as G.
      destruct (load_feature f L) as [[f1 L1] [|errno]] eqn:E; simpl in G.
      + destruct (IH L1) as [IH1 IH2].
        destruct (loadData_loop rest L1) as [[rest1 L2] c]. simpl in *.
        split; [now rewrite G, IH1|].
        intros Hc. rewrite (IH2 Hc), (load_feature_added _ _ _ _ E).
        rewrite <- app_assoc. now destruct (supported f1).
      + simpl. split; [now rewrite G|discriminate]. }
  destruct (loadData_loop features L) as [[fs L1] [|errno]]; simpl in *.
  - exact H.
  - split; [apply H|discriminate].
Qed.

(** ** Loading: the sizes of the buffers *)

Lemma sized_polygon_step (coordinates : list (list position)) (L : layer) :
  sized L ->
  match processPolygon coordinates L with
  | (L1, Normal) =>
      sized (push_borderCounts
               (Polygons.borderCount (polygons L1) - Polygons.borderCount (polygons L)) L1)
  | (L1, Throw _) => sized L1
  end.
Proof.
  intros (H1 & H2 & H3 & H4).
  poly_cases coordinates L fill border Hfill Hborder.
  - unfold sized. simpl. now repeat split.
  - unfold sized. simpl.
    rewrite !length_app, sum_list_with_app, Nat.add_sub'. simpl. lia.
Qed.

Lemma sized_multiPolygon_loop (parts : list (list (list position))) :
  forall L : layer, sized L -> sized (fst (multiPolygon_loop parts L)).
Proof.
  induction parts as [|part rest IH]; intros L HL; [exact HL|].
  simpl. pose proof (sized_polygon_step part L HL) as Hp.
  destruct (processPolygon part L) as [L1 [|errno]]; [|exact Hp].
  now apply IH.
Qed.

Lemma sized_load_feature (f : feature_t) (L : layer) :
  sized L -> sized (snd (fst (load_feature f L))).
Proof.
  intros HL. unfold load_feature.
  destruct (geometry f) as [c|coordinates|parts|ty]; cbn beta iota zeta.
  - destruct HL as (H1 & H2 & H3 & H4). unfold sized. simpl.
    rewrite length_app. simpl. lia.
  - pose proof (sized_polygon_step coordinates L HL) as Hp.
    destruct (processPolygon coordinates L) as [L1 [|errno]]; exact Hp.
  - pose proof (sized_multiPolygon_loop parts L HL) as Hp.
    destruct (multiPolygon_loop parts L) as [L1 [|errno]]; exact Hp.
  - exact HL.
Qed.

Lemma sized_loadData_loop (features : list feature_t) :
  forall L : layer, sized L -> sized (snd (fst (loadData_loop features L))).
Proof.
  induction features as [|f rest IH]; intros L HL; [exact HL|].
  simpl. pose proof (sized_load_feature f L HL) as Hf.
  destruct (load_feature f L) as [[f1 L1] [|errno]]; simpl in Hf; [|exact Hf].
  specialize (IH L1 Hf). now destruct (loadData_loop rest L1) as [[? ?] ?].
Qed.

(** X15.  In a new layer every buffer has three cells to a counted vertex
    (points, fill vertices, border vertices) and the border count is the
    sum of the border counts.  A load keeps this, however it ends, and so
    does a recolouring that stays inside the counted vertices:
    [changePointColor] of a point below the point count,
    [changePolyColor] with [idxEnd] below the fill count. *)
Theorem buffers_sized :
  sized new_layer /\
  (forall (features : list feature_t) (L : layer),
      sized L -> sized (snd (fst (loadData features L)))) /\
  (forall (idx : nat) (color : color) (L : layer),
      sized L -> idx < Points.count (points L) -> sized (changePointColor idx color L)) /\
  (forall (idxStart idxEnd : nat) (color : color) (L : layer),
      sized L -> idxEnd < Polygons.count (polygons L) ->
      sized (changePolyColor idxStart idxEnd color L)) /\
  (forall (color : color) (L : layer), sized L -> sized (setDefaultPointColor color L)).
Proof.
  split; [|split; [|split; [|split]]].
  - unfold sized. simpl. now repeat split.
  - intros features L HL. unfold loadData.
    pose proof (sized_loadData_loop features L HL) as H.
    now destruct (loadData_loop features L) as [[fs L1] [|errno]].
  - intros idx color L (H1 & H2 & H3 & H4) Hidx. unfold sized, changePointColor. simpl.
    rewrite js_set_length. repeat split; try assumption. lia.
  - intros idxStart idxEnd color L (H1 & H2 & H3 & H4) Hidx.
    unfold sized, changePolyColor. simpl. repeat split; try assumption.
    destruct (decide (idxStart <= S idxEnd)) as [Hle|Hgt].
    + destruct (changePolyColor_loop_in_range color (S idxEnd - idxStart) idxStart
                  (Polygons.floats (polygons L))) as [Hl _]; [lia|].
      now rewrite Hl.
    + now replace (S idxEnd - idxStart) with 0 by lia.
  - intros color L HL. exact HL.
Qed.

(** ** Loading: the stamps *)

Lemma load_feature_stamps (f f' : feature_t) (L L' : layer) :
  load_feature f L = (f', L', Normal) ->
  (if is_polygonal f' then
     indexStart (properties f') = Some (Polygons.count (polygons L)) /\
     indexEnd (properties f') = Some (Polygons.count (polygons L')) /\
     Polygons.count (polygons L) <= Polygons.count (polygons L')
   else Polygons.count (polygons L') = Polygons.count (polygons L)) /\
  (if is_point f' then
     index (properties f') = Some (Points.count (points L)) /\
     Points.count (points L') = S (Points.count (points L))
   else Points.count (points L') = Points.count (points L)).
Proof.
  intros H. pose proof (load_feature_geometry f L) as G. rewrite H in G. simpl in G.
  unfold is_polygonal, is_point. rewrite G. revert H. unfold load_feature.
  destruct (geometry f) as [c|coordinates|parts|ty]; cbn beta iota zeta.
  - intros H. inversion H; subst. simpl. now repeat split.
  - poly_cases coordinates L fill border Hfill Hborder; [discriminate|].
    intros H. inversion H; subst. simpl. repeat split. lia.
  - destruct (multiPolygon_loop parts L) as [L1 [|errno]] eqn:E; [|discriminate].
    apply multiPolygon_loop_normal in E.
    destruct E as (Hp & _ & _ & _ & _ & _ & _ & _ & Hle).
    intros H. inversion H; subst. simpl. rewrite Hp. now repeat split.
  - intros H. inversion H; subst. now split.
Qed.

(** X16.  After a load that ends normally, the fill ranges stamped on the
    Polygon and MultiPolygon features of the payload follow each other in
    the order of the payload: the first starts at the fill count before
    the load, each next one starts where the one before ends, the last
    ends at the fill count after the load, and no range ends before it
    starts.  So the ranges of different features do not overlap. *)
Theorem stamped_ranges_chain (features features' : list feature_t) (L L' : layer) :
  loadData features L = (features', L', Normal) ->
  ranges_chain (Polygons.count (polygons L)) features' (Polygons.count (polygons L')).
Proof.
  unfold loadData.
  destruct (loadData_loop features L) as [[fs L1] [|errno]] eqn:E; [|discriminate].
  intros H. inversion H; subst. clear H. simpl.
  revert L features' L1 E. induction features as [|f rest IH]; intros L fs L1 E.
  - inversion E; subst. reflexivity.
  - simpl in E.
    destruct (load_feature f L) as [[f1 L2] [|errno]] eqn:Ef; [|discriminate].
    destruct (loadData_loop rest L2) as [[rest1 L3] c] eqn:Er.
    inversion E; subst. apply IH in Er.
    destruct (load_feature_stamps _ _ _ _ Ef) as [Hs _].
    simpl. destruct (is_polygonal f1).
    + destruct Hs as (Hs & He & Hle). eexists. repeat split; eassumption.
    + now rewrite <- Hs.
Qed.

(** X17.  After a load that ends normally, the Point features of the payload
    are stamped with consecutive indices in the order of the payload,
    from the point count before the load. *)
Theorem stamped_points_numbered (features features' : list feature_t) (L L' : layer) :
  loadData features L = (features', L', Normal) ->
  points_numbered (Points.count (points L)) features'.
Proof.
  unfold loadData.
  destruct (loadData_loop features L) as [[fs L1] [|errno]] eqn:E; [|discriminate].
  intros H. inversion H; subst. clear H.
  revert L features' L1 E. induction features as [|f rest IH]; intros L fs L1 E.
  - inversion E; subst. exact I.
  - simpl in E.
    destruct (load_feature f L) as [[f1 L2] [|errno]] eqn:Ef; [|discriminate].
    destruct (loadData_loop rest L2) as [[rest1 L3] c] eqn:Er.
    inversion E; subst. apply IH in Er.
    destruct (load_feature_stamps _ _ _ _ Ef) as [_ Hs].
    simpl. destruct (is_point f1).
    + destruct Hs as (Hs & Hc). split; [exact Hs|]. now rewrite <- Hc.
    + now rewrite <- Hs.
Qed.

(** ** Loading: the dirty flags *)

Lemma load_feature_changed (f f' : feature_t) (L L' : layer) :
  load_feature f L = (f', L', Normal) ->
  Points.changed (points L') = Points.changed (points L) || is_point f /\
  Polygons.changed (polygons L') = Polygons.changed (polygons L) || is_polygonal f.
Proof.
  unfold is_point, is_polygonal, load_feature.
  destruct (geometry f) as [c|coordinates|parts|ty]; cbn beta iota zeta.
  - intros H. inversion H; subst. simpl. now rewrite !orb_true_r, orb_false_r.
  - poly_cases coordinates L fill border Hfill Hborder; [discriminate|].
    intros H. inversion H; subst. simpl. now rewrite !orb_true_r, orb_false_r.
  - destruct (multiPolygon_loop parts L) as [L1 [|errno]] eqn:E; [|discriminate].
    apply multiPolygon_loop_normal in E. destruct E as (Hp & _).
    intros H. inversion H; subst. simpl. now rewrite Hp, !orb_true_r, orb_false_r.
  - intros H. inversion H; subst. now rewrite !orb_false_r.
Qed.

(** X18.  After a load that ends normally, the points' dirty flag is set if
    it was set or the payload has a Point feature, and the polygons' dirty
    flag is set if it was set or the payload has a Polygon or MultiPolygon
    feature; otherwise the flags are clear, as before. *)
Theorem loadData_dirty_flags (features features' : list feature_t) (L L' : layer) :
  loadData features L = (features', L', Normal) ->
  Points.changed (points L') = Points.changed (points L) || existsb is_point features /\
  Polygons.changed (polygons L')
    = Polygons.changed (polygons L) || existsb is_polygonal features.
Proof.
  unfold loadData.
  destruct (loadData_loop features L) as [[fs L1] [|errno]] eqn:E; [|discriminate].
  intros H. inversion H; subst. clear H. simpl.
  revert L features' L1 E. induction features as [|f rest IH]; intros L fs L1 E.
  - inversion E; subst. simpl. now rewrite !orb_false_r.
  - simpl in E.
    destruct (load_feature f L) as [[f1 L2] [|errno]] eqn:Ef; [|discriminate].
    destruct (loadData_loop rest L2) as [[rest1 L3] c] eqn:Er.
    inversion E; subst. apply IH in Er. destruct Er as [Er1 Er2].
    destruct (load_feature_changed _ _ _ _ Ef) as [Hf1 Hf2].
    simpl. rewrite Er1, Er2, Hf1, Hf2. now rewrite !orb_assoc.
Qed.

(** ** Loading: a payload in two parts *)

Lemma processPolygon_scheduled (coordinates : list (list position)) (L : layer) :
  processPolygon coordinates (scheduleUpdate L)
  = (scheduleUpdate (fst (processPolygon coordinates L)),
     snd (processPolygon coordinates L)).
Proof.
  unfold processPolygon. simpl.
  destruct (tess_polygon (tesselator_ L) (map (map adj) coordinates)) as [events t].
  now destruct (run_callbacks events []) as [a [|errno]].
Qed.

Lemma multiPolygon_loop_scheduled (parts : list (list (list position))) :
  forall L : layer,
    multiPolygon_loop parts (scheduleUpdate L)
    = (scheduleUpdate (fst (multiPolygon_loop parts L)), snd (multiPolygon_loop parts L)).
Proof.
  induction parts as [|part rest IH]; intros L; [reflexivity|].
  simpl. rewrite processPolygon_scheduled.
  destruct (processPolygon part L) as [L1 [|errno]]; [|reflexivity].
  simpl. apply (IH (push_borderCounts _ L1)).
Qed.

Lemma load_feature_scheduled (f : feature_t) (L : layer) :
  load_feature f (scheduleUpdate L)
  = (fst (fst (load_feature f L)), scheduleUpdate (snd (fst (load_feature f L))),
     snd (load_feature f L)).
Proof.
  unfold load_feature.
  destruct (geometry f) as [c|coordinates|parts|ty]; cbn beta iota zeta.
  - reflexivity.
  - rewrite processPolygon_scheduled.
    now destruct (processPolygon coordinates L) as [L1 [|errno]].
  - rewrite multiPolygon_loop_scheduled.
    now destruct (multiPolygon_loop parts L) as [L1 [|errno]].
  - reflexivity.
Qed.

Lemma loadData_loop_scheduled (features : list feature_t) :
  forall L : layer,
    loadData_loop features (scheduleUpdate L)
    = (fst (fst (loadData_loop features L)),
       scheduleUpdate (snd (fst (loadData_loop features L))),
       snd (loadData_loop features L)).
Proof.
  induction features as [|f rest IH]; intros L; [reflexivity|].
  simpl. rewrite load_feature_scheduled.
  destruct (load_feature f L) as [[f1 L1] [|errno]]; [|reflexivity].
  simpl. rewrite IH. now destruct (loadData_loop rest L1) as [[rest1 L2] c].
Qed.

(** X19.  Loading a payload in two parts, when the first part loads
    normally, gives what loading it at once gives: the same stamped
    features, the same end, and the same layer but for one more update
    scheduled. *)
Theorem loadData_in_parts (a b fa : list feature_t) (L La : layer) :
  loadData a L = (fa, La, Normal) ->
  let rb := loadData b La in
  let rab := loadData (a ++ b) L in
  fst (fst rab) = fa ++ fst (fst rb) /\
  snd rab = snd rb /\
  scheduleUpdate (snd (fst rab)) = snd (fst rb).
Proof.
  unfold loadData.
  destruct (loadData_loop a L) as [[fa0 La0] [|errno]] eqn:Ea; [|discriminate].
  intros H. inversion H; subst. clear H. cbv zeta.
  rewrite (loadData_loop_app _ b _ _ _ Ea), loadData_loop_scheduled.
  now destruct (loadData_loop b La0) as [[fb Lb] [|errno]].
Qed.

(** ** Loading: what a polygon puts in the buffers *)

Lemma run_callbacks_content (events : list tess_event) (a : list (option Q)) :
  first_error events = None ->
  run_callbacks events a = (a ++ concat (map fill_vertex (vertex_data events)), Normal).
Proof.
  revert a. induction events as [|e events IH]; intros a Hne.
  - simpl. now rewrite app_nil_r.
  - destruct e; simpl in *; try discriminate; try (apply IH; assumption).
    rewrite (IH _ Hne). unfold vertexCallback_, fill_vertex.
    now rewrite <- app_assoc.
Qed.

Lemma vertex_events_data (events : list tess_event) :
  vertex_events events = length (vertex_data events).
Proof.
  induction events as [|e events IH]; [reflexivity|].
  destruct e; simpl; now rewrite ?IH.
Qed.

Lemma border_points_concat (coordinates : list (list position)) :
  concat (map (fun contour => concat (map border_vertex contour)) coordinates)
  = concat (map border_vertex (concat coordinates)).
Proof.
  induction coordinates as [|contour rest IH]; [reflexivity|].
  simpl. rewrite IH, map_app, concat_app. reflexivity.
Qed.

(** X20.  Ingesting a Polygon feature, when no tesselation error is
    reported, appends to the border buffer the projected positions of all
    its rings, outer ring and holes one after the other, each with the
    packed colour of black, and records them all as one entry of
    [borderCounts]; it appends to the fill buffer the vertices the
    tesselator emitted, in the order it emitted them, each with the packed
    colour of red, whatever the default point colour is. *)
Theorem polygon_ingest_content (coordinates : list (list position)) (props : properties_t)
    (L L' : layer) (f' : feature_t) :
  let events := fst (tess_polygon (tesselator_ L) (map (map adj) coordinates)) in
  load_feature {| geometry := Polygon coordinates; properties := props |} L
    = (f', L', Normal) ->
  Polygons.borderFloats (polygons L')
    = Polygons.borderFloats (polygons L) ++ concat (map border_vertex (concat coordinates)) /\
  Polygons.borderCounts (polygons L')
    = Polygons.borderCounts (polygons L) ++ [polygon_vertices coordinates] /\
  Polygons.floats (polygons L')
    = Polygons.floats (polygons L) ++ concat (map fill_vertex (vertex_data events)) /\
  Polygons.count (polygons L')
    = Polygons.count (polygons L) + length (vertex_data events) /\
  points L' = points L.
Proof.
  intros events. unfold load_feature. cbn [geometry]. cbn beta iota zeta.
  unfold processPolygon. subst events.
  destruct (tess_polygon (tesselator_ L) (map (map adj) coordinates)) as [events t].
  cbn [fst].
  destruct (first_error events) as [errno|] eqn:Herr.
  - pose proof (run_callbacks_error events [] errno Herr) as E.
    destruct (run_callbacks events []) as [a c]. simpl in E. subst c. discriminate.
  - rewrite (run_callbacks_content events [] Herr). cbn [app].
    intros H. inversion H; subst. clear H. simpl.
    rewrite border_points_concat.
    assert (E1 : length (concat (map fill_vertex (vertex_data events))) / 3
                 = length (vertex_data events)).
    { generalize (vertex_data events). intros l.
      assert (E : length (concat (map fill_vertex l)) = length l * 3).
      { induction l as [|d l IH]; [reflexivity|]. simpl. rewrite IH. lia. }
      rewrite E. apply Nat.div_mul. discriminate. }
    assert (E2 : length (concat (map border_vertex (concat coordinates))) / 3
                 = polygon_vertices coordinates).
    { rewrite <- border_points_concat, length_border_points, Nat.mul_comm.
      apply Nat.div_mul. discriminate. }
    rewrite E1, E2, Nat.add_sub'. now repeat split.
Qed.

End Loading.

(** ** Evaluations of the further properties *)

Local Open Scope Q_scope.

Lemma changePointColor_order_witness :
  Points.floats (points (changePointColor 1 (Color 0 1 0)
                           (changePointColor 0 (Color 0 0 1) new_layer)))
  = Points.floats (points (changePointColor 0 (Color 0 0 1)
                             (changePointColor 1 (Color 0 1 0) new_layer))).
Proof.
  apply (proj2 (changePointColor_order new_layer) 0%nat 1%nat). discriminate.
Defined.

Lemma changePolyColor_ranges_witness :
  Polygons.floats (polygons (changePolyColor 2 3 (Color 0 0 1)
                               (changePolyColor 0 1 (Color 0 0 1) new_layer)))
  = Polygons.floats (polygons (changePolyColor 0 3 (Color 0 0 1) new_layer)).
Proof.
  apply (proj2 (changePolyColor_ranges (Color 0 0 1) new_layer) 0%nat 1%nat 3%nat); lia.
Defined.

Lemma changePolyColor_inclusive_witness :
  let L := snd (fst (loadData [feature_of (Polygon [square_ring])] new_layer)) in
  let L' := changePolyColor 1 4 (Color 0 0 1) L in
  length (Polygons.floats (polygons L')) = length (Polygons.floats (polygons L)) /\
  (forall k c : nat, (c < 3)%nat ->
     Polygons.floats (polygons L') !! (k * 3 + c)%nat
     = if decide (c = 2%nat /\ (1 <= k <= 4)%nat) then Some (Some (packColor (Color 0 0 1)))
       else Polygons.floats (polygons L) !! (k * 3 + c)%nat) /\
  Polygons.changed (polygons L') = true /\
  scheduled L' = S (scheduled L).
Proof.
  apply (changePolyColor_inclusive 1 4 (Color 0 0 1)
           (snd (fst (loadData [feature_of (Polygon [square_ring])] new_layer)))).
  - lia.
  - vm_compute. lia.
Defined.

Lemma loadData_unsupported_witness :
  loadData [feature_of (OtherGeometry "LineString")] new_layer
  = ([feature_of (OtherGeometry "LineString")], scheduleUpdate new_layer, Normal).
Proof.
  apply (loadData_unsupported [feature_of (OtherGeometry "LineString")] new_layer).
  repeat constructor.
Defined.

Lemma onAddFeature_calls_witness :
  added (snd (fst (loadData mixed_payload new_layer)))
  = added new_layer ++ List.filter supported (fst (fst (loadData mixed_payload new_layer))).
Proof.
  apply (proj2 (onAddFeature_calls mixed_payload new_layer)). reflexivity.
Defined.

Lemma buffers_sized_witness :
  sized (changePolyColor 0 2 (Color 0 0 1)
           (snd (fst (loadData [feature_of (Polygon [triangle_ring])] new_layer)))).
Proof.
  apply (proj1 (proj2 (proj2 (proj2 buffers_sized)))).
  - apply (proj1 (proj2 buffers_sized)). apply (proj1 buffers_sized).
  - vm_compute. lia.
Defined.

Lemma stamped_ranges_chain_witness :
  ranges_chain (Polygons.count (polygons new_layer))
    (fst (fst mixed_loaded))
    (Polygons.count (polygons (snd (fst mixed_loaded)))).
Proof.
  refine (stamped_ranges_chain mixed_payload (fst (fst mixed_loaded)) new_layer
            (snd (fst mixed_loaded)) _).
  reflexivity.
Defined.

Lemma stamped_points_numbered_witness :
  points_numbered (Points.count (points new_layer)) (fst (fst mixed_loaded)).
Proof.
  refine (stamped_points_numbered mixed_payload (fst (fst mixed_loaded)) new_layer
            (snd (fst mixed_loaded)) _).
  reflexivity.
Defined.

Lemma loadData_dirty_flags_witness :
  let L' := snd (fst (loadData [feature_of (Point (0, 0))] new_layer)) in
  Points.changed (points L')
    = Points.changed (points new_layer) || existsb is_point [feature_of (Point (0, 0))] /\
  Polygons.changed (polygons L')
    = Polygons.changed (polygons new_layer)
      || existsb is_polygonal [feature_of (Point (0, 0))].
Proof.
  refine (loadData_dirty_flags [feature_of (Point (0, 0))] _ new_layer _ _). reflexivity.
Defined.

Lemma loadData_in_parts_witness :
  let a := [feature_of (Polygon [triangle_ring])] in
  let b := [feature_of (Point (0, 0))] in
  let fa := fst (fst (loadData a new_layer)) in
  let La := snd (fst (loadData a new_layer)) in
  let rb := loadData b La in
  let rab := loadData (a ++ b) new_layer in
  fst (fst rab) = fa ++ fst (fst rb) /\
  snd rab = snd rb /\
  scheduleUpdate (snd (fst rab)) = snd (fst rb).
Proof.
  refine (loadData_in_parts [feature_of (Polygon [triangle_ring])]
            [feature_of (Point (0, 0))] _ new_layer _ _).
  reflexivity.
Defined.

Lemma polygon_ingest_content_witness :
  let L := new_layer in
  let L' := snd (fst holed_loaded) in
  let events := fst (tess_polygon (tesselator_ L) (map (map adj) holed_polygon)) in
  Polygons.borderFloats (polygons L')
    = Polygons.borderFloats (polygons L) ++ concat (map border_vertex (concat holed_polygon)) /\
  Polygons.borderCounts (polygons L')
    = Polygons.borderCounts (polygons L) ++ [polygon_vertices holed_polygon] /\
  Polygons.floats (polygons L')
    = Polygons.floats (polygons L) ++ concat (map fill_vertex (vertex_data events)) /\
  (Polygons.count (polygons L')
    = Polygons.count (polygons L) + length (vertex_data events))%nat /\
  points L' = points L.
Proof.
  refine (polygon_ingest_content holed_polygon no_properties new_layer
            (snd (fst holed_loaded)) (fst (fst holed_loaded)) _).
  reflexivity.
Defined.

(** ** Tiles: the cache *)

Local Open Scope nat_scope.
#[local] Set Warnings "-clear-no-such-hyp".

Lemma request_tiles_spec (tilebase : option string) (zoom : Z) (tiles : list (Z * Z)) :
  forall tilecache : gset string,
    let r := request_tiles tilebase zoom tiles tilecache in
    NoDup (fst r) /\
    (forall url, url ∈ fst r -> url ∉ tilecache) /\
    snd r = tilecache ∪ list_to_set (fst r) /\
    (forall url, url ∈ fst r ->
       exists row col, (row, col) ∈ tiles /\ url = tile_url tilebase zoom row col) /\
    (forall row col, (row, col) ∈ tiles -> tile_url tilebase zoom row col ∈ snd r).
Proof.
  induction tiles as [|[row col] rest IH]; intros tilecache; cbv zeta.
  - simpl. split; [constructor|]. repeat split; set_solver.
  - simpl. destruct (decide (tile_url tilebase zoom row col ∈ tilecache)) as [Hin|Hout].
    + destruct (IH tilecache) as (H1 & H2 & H3 & H4 & H5).
      split; [exact H1|]. split; [exact H2|]. split; [exact H3|]. split.
      * intros url Hu. destruct (H4 url Hu) as (r & c & Hrc & ->).
        exists r, c. split; [now right|reflexivity].
      * intros r c Hrc. apply elem_of_cons in Hrc as [[= -> ->]|Hrc]; [|now apply H5].
        rewrite H3. set_solver.
    + destruct (IH ({[tile_url tilebase zoom row col]} ∪ tilecache))
        as (H1 & H2 & H3 & H4 & H5).
      destruct (request_tiles tilebase zoom rest
                  ({[tile_url tilebase zoom row col]} ∪ tilecache)) as [requests cache'].
      simpl in *. split; [|split; [|split; [|split]]].
      * constructor; [|exact H1]. intros Hu. apply H2 in Hu. set_solver.
      * intros url Hu. apply elem_of_cons in Hu as [->|Hu]; [exact Hout|].
        apply H2 in Hu. set_solver.
      * rewrite H3. set_solver.
      * intros url Hu. apply elem_of_cons in Hu as [->|Hu].
        -- exists row, col. split; [now left|reflexivity].
        -- destruct (H4 url Hu) as (r & c & Hrc & ->).
           exists r, c. split; [now right|reflexivity].
      * intros r c Hrc. apply elem_of_cons in Hrc as [[= -> ->]|Hrc]; [|now apply H5].
        rewrite H3. set_solver.
Qed.

Lemma request_tiles_cached (tilebase : option string) (zoom : Z) (tiles : list (Z * Z))
    (tilecache : gset string) :
  (forall row col, (row, col) ∈ tiles -> tile_url tilebase zoom row col ∈ tilecache) ->
  request_tiles tilebase zoom tiles tilecache = ([], tilecache).
Proof.
  induction tiles as [|[row col] rest IH]; intros H; [reflexivity|].
  simpl. rewrite decide_True by (apply H; now left).
  apply IH. intros r c Hrc. apply H. now right.
Qed.

Section Tiles.
Context `{host : Host} (Math_cos : Q -> Q).

(** X21.  [loadTiles] requests no url twice and no url that is in the
    cache; it enters in the cache the urls it requests and nothing else,
    and after the call the url of every tile of the view is in the cache. *)
Theorem loadTiles_requests (map : map_t) (tilebase : option string)
    (zoomlock : option Z) (tilecache : gset string) :
  let r := loadTiles Math_cos map tilebase zoomlock tilecache in
  let zoom := locked_zoom zoomlock (map_zoom map) in
  let tiles := tile_range (loc2Tiles Math_cos (map_southWest map) zoom)
                          (loc2Tiles Math_cos (map_northEast map) zoom) in
  NoDup (fst r) /\
  (forall url, url ∈ fst r -> url ∉ tilecache) /\
  snd r = tilecache ∪ list_to_set (fst r) /\
  (forall row col, (row, col) ∈ tiles -> tile_url tilebase zoom row col ∈ snd r).
Proof.
  cbv zeta. unfold loadTiles.
  match goal with
  | |- context [request_tiles ?b ?z ?t ?c] =>
      destruct (request_tiles_spec b z t c) as (H1 & H2 & H3 & _ & H5)
  end.
  now repeat split.
Qed.

(** X22.  A second call of [loadTiles] for the same view requests nothing
    and leaves the cache as it is.  Over any sequence of views no url is
    requested twice, nor one that was in the cache at the start, and the
    cache loses no url. *)
Theorem loadTiles_once (tilebase : option string) (zoomlock : option Z)
    (tilecache : gset string) :
  (forall map : map_t,
      let r := loadTiles Math_cos map tilebase zoomlock tilecache in
      loadTiles Math_cos map tilebase zoomlock (snd r) = ([], snd r)) /\
  (forall maps : list map_t,
      let r := loadTiles_views Math_cos maps tilebase zoomlock tilecache in
      NoDup (fst r) /\
      (forall url, url ∈ fst r -> url ∉ tilecache) /\
      tilecache ⊆ snd r).
Proof.
  split.
  - intros map. cbv zeta. unfold loadTiles.
    apply request_tiles_cached. intros row col Hrc.
    match goal with
    | |- context [request_tiles ?b ?z ?t ?c] =>
        destruct (request_tiles_spec b z t c) as (_ & _ & _ & _ & H5)
    end.
    now apply H5.
  - intros maps. revert tilecache.
    induction maps as [|map rest IH]; intros tilecache; cbv zeta.
    + simpl. split; [constructor|]. split; set_solver.
    + simpl.
      destruct (loadTiles_requests map tilebase zoomlock tilecache) as (H1 & H2 & H3 & _).
      destruct (loadTiles Math_cos map tilebase zoomlock tilecache) as [requests cache1].
      destruct (IH cache1) as (I1 & I2 & I3).
      destruct (loadTiles_views Math_cos rest tilebase zoomlock cache1)
        as [requests' cache2].
      simpl in *. subst cache1. split; [|split].
      * apply NoDup_app. split; [exact H1|]. split; [|exact I1].
        intros url Hu Hu'. apply I2 in Hu'. set_solver.
      * intros url Hu. apply elem_of_app in Hu as [Hu|Hu]; [now apply H2|].
        apply I2 in Hu. set_solver.
      * set_solver.
Qed.

End Tiles.

(** ** Tiles: the urls *)

Lemma append_inv_head (s a b : string) : (s +:+ a = s +:+ b)%string -> a = b.
Proof. induction s as [|c s IH]; simpl; [auto|]. intros [= H]. auto. Qed.

Lemma split_unique (c : ascii) (s : string) :
  forall (s' t t' : string),
    has_char c s = false -> has_char c s' = false ->
    (s +:+ String c t = s' +:+ String c t')%string -> s = s' /\ t = t'.
Proof.
  induction s as [|a s IH]; intros [|a' s'] t t' Hs Hs' H; simpl in *.
  - now inversion H.
  - inversion H; subst. rewrite decide_True in Hs' by reflexivity. discriminate.
  - inversion H; subst. rewrite decide_True in Hs by reflexivity. discriminate.
  - inversion H; subst.
    destruct (decide (a' = c)); [discriminate|].
    destruct (IH s' t t' Hs Hs' H2) as [-> ->]. auto.
Qed.

Lemma pretty_N_go_no_char (c : ascii) :
  (forall d : N, pretty_N_char d <> c) ->
  forall (x : N) (s : string),
    has_char c s = false -> has_char c (pretty_N_go x s) = false.
Proof.
  intros Hc x. induction (N.lt_wf_0 x) as [x _ IH]. intros s Hs.
  destruct (decide (x = 0%N)) as [->|Hx].
  - now rewrite pretty_N_go_0.
  - rewrite pretty_N_go_step by lia. apply IH.
    + apply N.div_lt; lia.
    + simpl. rewrite decide_False by apply Hc. exact Hs.
Qed.

Lemma pretty_Z_no_char (c : ascii) (z : Z) :
  (forall d : N, pretty_N_char d <> c) -> c <> "-"%char ->
  has_char c (pretty z) = false.
Proof.
  intros Hc Hdash.
  assert (HN : forall p : positive, has_char c (pretty p) = false).
  { intros p. unfold pretty, pretty_positive, pretty, pretty_N.
    rewrite decide_False by discriminate. now apply pretty_N_go_no_char. }
  destruct z as [|p|p]; unfold pretty, pretty_Z.
  - simpl. rewrite decide_False; [reflexivity|]. apply (Hc 0%N).
  - apply HN.
  - simpl. rewrite decide_False by congruence. apply HN.
Qed.

Lemma pretty_N_char_not_slash (d : N) : pretty_N_char d <> "/"%char.
Proof. unfold pretty_N_char. repeat case_match; discriminate. Qed.

Lemma pretty_N_char_not_dot (d : N) : pretty_N_char d <> "."%char.
Proof. unfold pretty_N_char. repeat case_match; discriminate. Qed.

(** X23.  Under one tile base, tiles that differ in zoom, row or column have
    different urls. *)
Theorem tile_url_inj (tilebase : option string) (zoom row col zoom' row' col' : Z) :
  tile_url tilebase zoom row col = tile_url tilebase zoom' row' col' ->
  zoom = zoom' /\ row = row' /\ col = col'.
Proof.
  unfold tile_url. intros H. apply append_inv_head in H.
  assert (Hslash : forall z : Z, has_char "/"%char (pretty z) = false).
  { intros z. apply pretty_Z_no_char; [apply pretty_N_char_not_slash|discriminate]. }
  assert (Hdot : forall z : Z, has_char "."%char (pretty z) = false).
  { intros z. apply pretty_Z_no_char; [apply pretty_N_char_not_dot|discriminate]. }
  apply (split_unique "/"%char) in H as [Hz H]; [|apply Hslash..].
  apply (split_unique "/"%char) in H as [Hr H]; [|apply Hslash..].
  apply (split_unique "."%char (pretty col) (pretty col') "geojson" "geojson")
    in H as [Hc _]; [|apply Hdot..].
  repeat split; now apply (inj pretty).
Qed.

Lemma tile_url_inj_witness : (12 = 12 /\ 3 = 3 /\ 4 = 4)%Z.
Proof.
  apply (tile_url_inj (Some "//tileserver.com/layer/"%string) 12 3 4 12 3 4).
  reflexivity.
Defined.

Lemma NoDup_tile_range (bottomLeft topRight : Z * Z) :
  NoDup (tile_range bottomLeft topRight).
Proof.
  unfold tile_range.
  generalize (seqZ (snd topRight) (snd bottomLeft - snd topRight + 1))
             (NoDup_seqZ (snd topRight) (snd bottomLeft - snd topRight + 1)).
  generalize (seqZ (fst bottomLeft) (fst topRight - fst bottomLeft + 1))
             (NoDup_seqZ (fst bottomLeft) (fst topRight - fst bottomLeft + 1)).
  intros rows Hrows cols Hcols.
  induction Hrows as [|row rows Hrow Hrows IH]; simpl; [constructor|].
  apply NoDup_app. split; [|split; [|exact IH]].
  - clear -Hcols. induction Hcols as [|col cols Hcol Hcols IH]; simpl; [constructor|].
    constructor; [|exact IH]. intros Hin. apply list_elem_of_In in Hin.
    apply in_map_iff in Hin as (c0 & [= <-] & Hin). apply Hcol.
    now apply list_elem_of_In.
  - intros [r c] Hin Hin'. apply list_elem_of_In in Hin, Hin'.
    apply in_map_iff in Hin as (c0 & [= <- <-] & _).
    apply in_flat_map in Hin' as (r' & Hr' & Hin').
    apply in_map_iff in Hin' as (c1 & [= <- <-] & _).
    apply Hrow. now apply list_elem_of_In.
Qed.

Lemma length_tile_range (bottomLeft topRight : Z * Z) :
  length (tile_range bottomLeft topRight)
  = Z.to_nat (fst topRight - fst bottomLeft + 1)
    * Z.to_nat (snd bottomLeft - snd topRight + 1).
Proof.
  unfold tile_range.
  rewrite <- (length_seqZ (fst bottomLeft)), <- (length_seqZ (snd topRight)).
  generalize (seqZ (snd topRight) (snd bottomLeft - snd topRight + 1)).
  generalize (seqZ (fst bottomLeft) (fst topRight - fst bottomLeft + 1)).
  intros rows cols. induction rows as [|row rows IH]; [reflexivity|].
  simpl. rewrite length_app, length_map, IH. reflexivity.
Qed.

Lemma request_tiles_fresh (tilebase : option string) (zoom : Z) (tiles : list (Z * Z)) :
  forall tilecache : gset string,
    NoDup tiles ->
    (forall row col, (row, col) ∈ tiles -> tile_url tilebase zoom row col ∉ tilecache) ->
    fst (request_tiles tilebase zoom tiles tilecache)
    = map (fun t => tile_url tilebase zoom (fst t) (snd t)) tiles.
Proof.
  induction tiles as [|[row col] rest IH]; intros tilecache Hnd Hfresh; [reflexivity|].
  simpl. rewrite decide_False by (apply Hfresh; now left).
  apply NoDup_cons in Hnd as [Hnotin Hnd].
  specialize (IH ({[tile_url tilebase zoom row col]} ∪ tilecache) Hnd).
  destruct (request_tiles tilebase zoom rest
              ({[tile_url tilebase zoom row col]} ∪ tilecache)) as [requests cache'].
  simpl in *. f_equal. apply IH. intros r c Hrc.
  apply not_elem_of_union. split.
  - intros Heq. apply elem_of_singleton in Heq.
    apply tile_url_inj in Heq as (_ & -> & ->). contradiction.
  - apply Hfresh. now right.
Qed.

Section TilesFresh.
Context `{host : Host} (Math_cos : Q -> Q).

(** X24.  With an empty cache [loadTiles] requests every tile of the view,
    each once, in the order of its loops: as many urls as the view has
    rows times columns, which is none when the north-east tile lies west
    or south of the south-west tile. *)
Theorem loadTiles_fresh (map : map_t) (tilebase : option string) (zoomlock : option Z) :
  let zoom := locked_zoom zoomlock (map_zoom map) in
  let bottomLeft := loc2Tiles Math_cos (map_southWest map) zoom in
  let topRight := loc2Tiles Math_cos (map_northEast map) zoom in
  let r := loadTiles Math_cos map tilebase zoomlock ∅ in
  fst r = List.map (fun t => tile_url tilebase zoom (fst t) (snd t))
                   (tile_range bottomLeft topRight) /\
  length (fst r)
  = Z.to_nat (fst topRight - fst bottomLeft + 1)
    * Z.to_nat (snd bottomLeft - snd topRight + 1) /\
  ((fst topRight < fst bottomLeft \/ snd bottomLeft < snd topRight)%Z ->
   r = ([], ∅)).
Proof.
  cbv zeta. unfold loadTiles.
  set (zoom := locked_zoom zoomlock (map_zoom map)).
  set (bl := loc2Tiles Math_cos (map_southWest map) zoom).
  set (tr := loc2Tiles Math_cos (map_northEast map) zoom).
  assert (E : fst (request_tiles tilebase zoom (tile_range bl tr) ∅)
              = List.map (fun t => tile_url tilebase zoom (fst t) (snd t))
                         (tile_range bl tr)).
  { apply request_tiles_fresh; [apply NoDup_tile_range|]. intros; set_solver. }
  split; [exact E|]. split.
  - rewrite E, length_map. apply length_tile_range.
  - intros Hempty.
    assert (Hnil : tile_range bl tr = []).
    { apply length_zero_iff_nil. rewrite length_tile_range. lia. }
    now rewrite Hnil.
Qed.

End TilesFresh.

Local Open Scope Q_scope.

Lemma Math_pow2_nonneg (zoom : Z) :
  (0 <= zoom)%Z -> Math_pow2 zoom == inject_Z (2 ^ zoom) /\ 0 < Math_pow2 zoom.
Proof.
  intros Hz. unfold Math_pow2.
  assert (E : 2 ^ zoom == inject_Z (2 ^ zoom)).
  { rewrite Zpower_Qpower by assumption. reflexivity. }
  split; [exact E|]. rewrite E. change 0 with (inject_Z 0). rewrite <- Zlt_Qlt.
  apply Z.pow_pos_nonneg; lia.
Qed.

Section TileColumn.
Context `{host : Host} (Math_cos : Q -> Q).

(** X25.  At a zoom level of 0 or more, the first tile number of
    [loc2Tiles] for a longitude from -180 to less than 180 is from 0 to
    [2^zoom - 1]; it does not decrease when the longitude increases, and
    at the longitude 180 it is [2^zoom], one beyond the last tile. *)
Theorem loc2Tiles_column (loc : latlng) (zoom : Z) :
  (0 <= zoom)%Z ->
  (-(180) <= lng loc -> lng loc < 180 ->
   (0 <= fst (loc2Tiles Math_cos loc zoom) < 2 ^ zoom)%Z) /\
  (lng loc == 180 -> fst (loc2Tiles Math_cos loc zoom) = (2 ^ zoom)%Z) /\
  (forall loc' : latlng, lng loc <= lng loc' ->
     (fst (loc2Tiles Math_cos loc zoom) <= fst (loc2Tiles Math_cos loc' zoom))%Z).
Proof.
  intros Hz. destruct (Math_pow2_nonneg zoom Hz) as [HP Hpos].
  unfold loc2Tiles. cbn [fst].
  assert (Ediv : forall x : Q, (x + 180) / 360 == (x + 180) * (1 # 360))
    by (intros; field).
  split; [|split].
  - intros Hlo Hhi.
    set (x := (lng loc + 180) / 360 * Math_pow2 zoom).
    assert (H0 : 0 <= x).
    { unfold x. apply Qmult_le_0_compat; [rewrite Ediv; lra | lra]. }
    assert (H1 : x < inject_Z (2 ^ zoom)).
    { unfold x. rewrite <- HP.
      assert (Ht : (lng loc + 180) / 360 < 1) by (rewrite Ediv; lra).
      pose proof (Qmult_lt_compat_r _ _ _ Hpos Ht) as Hm.
      now rewrite Qmult_1_l in Hm. }
    split.
    + change 0%Z with (Qfloor 0). now apply Qfloor_resp_le.
    + rewrite Zlt_Qlt. eapply Qle_lt_trans; [apply Qfloor_le | exact H1].
  - intros Heq.
    rewrite <- (Qfloor_Z (2 ^ zoom)). apply Qfloor_comp.
    rewrite <- HP, Heq. field.
  - intros loc' Hle. apply Qfloor_resp_le.
    apply Qmult_le_compat_r; [rewrite !Ediv; lra | lra].
Qed.

End TileColumn.

Lemma loc2Tiles_column_witness :
  let london := {| lat := 51; lng := -(1 # 8) |} in
  let column := fst (loc2Tiles (host := fan_host) (fun _ => 1) london 12) in
  (0 <= column < 2 ^ 12)%Z.
Proof.
  assert (Hz : (0 <= 12)%Z) by lia.
  apply (proj1 (loc2Tiles_column (host := fan_host) (fun _ => 1)
                  {| lat := 51; lng := -(1 # 8) |} 12 Hz)).
  - discriminate.
  - reflexivity.
Defined.

(** ** Drawing *)

Local Open Scope nat_scope.

Lemma uploads_app (a b : list gl_call) : uploads (a ++ b) = uploads a ++ uploads b.
Proof.
  induction a as [|c a IH]; [reflexivity|]. destruct c; simpl; now rewrite IH.
Qed.


Lemma uploads_draw_borders (borderCounts : list nat) (seen : nat) :
  uploads (draw_borders borderCounts seen) = [].
Proof.
  revert seen. induction borderCounts as [|n rest IH]; intros seen; [reflexivity|].
  simpl. apply IH.
Qed.


Section Drawing.
Context `{host : Host} (Math_cos : Q -> Q).

(** X26.  [update] uploads a buffer exactly when its dirty flag is set: the
    fill and the border buffer when the polygons' flag is set, then the
    point buffer when the points' flag is set.  It clears both flags and
    changes nothing else of the feature buffers, so that an update that
    follows at once uploads nothing. *)
Theorem update_uploads (map : map_t) (W : webgl) :
  let L := features_ W in
  let r := update Math_cos map W in
  let L' := features_ (fst (fst r)) in
  uploads (snd r)
  = (if Polygons.changed (polygons L)
     then [Polygons.floats (polygons L); Polygons.borderFloats (polygons L)] else [])
    ++ (if Points.changed (points L) then [Points.floats (points L)] else []) /\
  Polygons.changed (polygons L') = false /\
  Points.changed (points L') = false /\
  (Points.floats (points L') = Points.floats (points L) /\
   Points.count (points L') = Points.count (points L) /\
   Points.defaultColor (points L') = Points.defaultColor (points L)) /\
  (Polygons.floats (polygons L') = Polygons.floats (polygons L) /\
   Polygons.count (polygons L') = Polygons.count (polygons L) /\
   Polygons.borderFloats (polygons L') = Polygons.borderFloats (polygons L) /\
   Polygons.borderCount (polygons L') = Polygons.borderCount (polygons L) /\
   Polygons.borderCounts (polygons L') = Polygons.borderCounts (polygons L)) /\
  (forall map' : map_t, uploads (snd (update Math_cos map' (fst (fst r)))) = []).
Proof.
  cbv zeta. unfold update.
  destruct (if has_tilebase (tilebase W)
            then loadTiles Math_cos map (tilebase W) (zoomlock W) (tilecache_ W)
            else ([], tilecache_ W)) as [requests cache].
  cbn [fst snd features_ points polygons tilebase zoomlock tilecache_].
  split; [|split; [reflexivity|split; [reflexivity|split; [|split]]]].
  - rewrite !uploads_app, uploads_draw_borders.
    destruct (Polygons.changed (polygons (features_ W))),
             (Points.changed (points (features_ W))); reflexivity.
  - now repeat split.
  - now repeat split.
  - intros map'.
    destruct (if has_tilebase (tilebase W)
              then loadTiles Math_cos map' (tilebase W) (zoomlock W) cache
              else ([], cache)) as [requests' cache'].
    cbn [fst snd features_ points polygons Points.changed Polygons.changed].
    rewrite !uploads_app, uploads_draw_borders. reflexivity.
Qed.


End Drawing.

(** ** Evaluations of the tile and drawing properties *)

Local Open Scope Q_scope.

Lemma changePointColor_cells_witness :
  let L := snd (fst (loadData [feature_of (Point (0, 0)); feature_of (Point (1, 1))]
                       new_layer)) in
  Points.floats (points (changePointColor 1 (Color 0 0 1) L)) !! 0%nat
  = Points.floats (points L) !! 0%nat.
Proof.
  apply (proj1 (proj2 (proj2 (changePointColor_cells 1 (Color 0 0 1)
           (snd (fst (loadData [feature_of (Point (0, 0)); feature_of (Point (1, 1))]
                        new_layer)))))) 0%nat).
  - vm_compute. lia.
  - discriminate.
Defined.

Lemma loadTiles_requests_witness :
  tile_url (Some "t/"%string) 2 2 2
    ∈ snd (loadTiles one_cos quarter_view (Some "t/"%string) None ∅).
Proof.
  apply (proj2 (proj2 (proj2
           (loadTiles_requests one_cos quarter_view (Some "t/"%string) None ∅))) 2%Z 2%Z).
  vm_compute. repeat constructor.
Defined.

Lemma loadTiles_once_witness :
  tile_url (Some "t/"%string) 2 2 2 ∉ ({["t/2/9/9.geojson"%string]} : gset string).
Proof.
  apply (proj1 (proj2 (proj2 (loadTiles_once one_cos (Some "t/"%string) None
                                {["t/2/9/9.geojson"%string]})
                               [quarter_view]))).
  vm_compute. repeat constructor.
Defined.

Lemma loadTiles_fresh_witness :
  loadTiles one_cos inverted_view (Some "t/"%string) None ∅ = ([], ∅).
Proof.
  apply (proj2 (proj2 (loadTiles_fresh one_cos inverted_view (Some "t/"%string) None))).
  left. vm_compute. reflexivity.
Defined.


(** ** Loading: what a throw leaves behind *)

Local Open Scope nat_scope.

Section Throwing.
Context `{host : Host}.

Lemma processPolygon_changed (coordinates : list (list position)) (L : layer) :
  Polygons.changed (polygons (fst (processPolygon coordinates L)))
  = Polygons.changed (polygons L).
Proof.
  destruct (first_error (fst (tess_polygon (tesselator_ L) (map (map adj) coordinates))))
    as [errno|] eqn:E.
  - now rewrite (processPolygon_throw coordinates L errno E).
  - now destruct (processPolygon_normal coordinates L E) as (fill & border & _ & _ & ->).
Qed.

Lemma multiPolygon_loop_changed (parts : list (list (list position))) :
  forall L : layer,
    Polygons.changed (polygons (fst (multiPolygon_loop parts L)))
    = Polygons.changed (polygons L).
Proof.
  induction parts as [|part rest IH]; intros L; [reflexivity|].
  simpl. pose proof (processPolygon_changed part L) as Hp.
  destruct (processPolygon part L) as [L1 [|errno]]; simpl in Hp; [|exact Hp].
  now rewrite IH.
Qed.

(** X28.  When the ingestion of a feature throws, both dirty flags are as
    they were before it and the feature has no [indexEnd] stamped by it.
    For a Polygon nothing was appended.  For a MultiPolygon the parts
    before the one that failed stay in the buffers: when the first part is
    tesselated without error and a later part fails, the fill buffer and
    the fill count have grown by the vertices of the first part at least,
    and its entry is in [borderCounts], with the polygons' dirty flag no
    more set than before. *)
Theorem throw_leaves_parts (f f1 : feature_t) (L L2 : layer) (errno : Z) :
  load_feature f L = (f1, L2, Throw errno) ->
  Polygons.changed (polygons L2) = Polygons.changed (polygons L) /\
  Points.changed (points L2) = Points.changed (points L) /\
  indexEnd (properties f1) = indexEnd (properties f) /\
  (forall coordinates, geometry f = Polygon coordinates -> polygons L2 = polygons L) /\
  (forall part rest, geometry f = MultiPolygon (part :: rest) ->
     let events := fst (tess_polygon (tesselator_ L) (map (map adj) part)) in
     first_error events = None ->
     Polygons.count (polygons L) + vertex_events events <= Polygons.count (polygons L2) /\
     length (Polygons.floats (polygons L)) + 3 * vertex_events events
       <= length (Polygons.floats (polygons L2)) /\
     Polygons.borderCounts (polygons L) ++ [polygon_vertices part]
       `prefix_of` Polygons.borderCounts (polygons L2)).
Proof.
  intros H.
  destruct (load_feature_throw _ _ _ _ _ H) as (Hf1 & Hp & _ & _ & Hcase).
  split; [|split; [now rewrite Hp|split; [now rewrite Hf1|split]]].
  - revert H. unfold load_feature.
    destruct (geometry f) as [c|coordinates|parts|ty]; cbn beta iota zeta;
      try discriminate.
    + pose proof (processPolygon_changed coordinates L) as Hc.
      destruct (processPolygon coordinates L) as [L1 [|e]]; [discriminate|].
      intros H. inversion H; subst. exact Hc.
    + pose proof (multiPolygon_loop_changed parts L) as Hc.
      destruct (multiPolygon_loop parts L) as [L1 [|e]]; [discriminate|].
      intros H. inversion H; subst. exact Hc.
  - intros coordinates G. destruct Hcase as [(c & G' & Hpg & _)|(parts & G')].
    + exact Hpg.
    + rewrite G in G'. discriminate.
  - intros part rest G events Hne. revert H. unfold load_feature. rewrite G.
    cbn beta iota zeta. cbn [multiPolygon_loop].
    destruct (processPolygon_normal part L Hne) as (fill & border & Hfill & Hborder & ->).
    match goal with
    | |- context [multiPolygon_loop rest ?X] =>
        pose proof (grows_multiPolygon_loop rest X) as Hg;
        destruct (multiPolygon_loop rest X) as [L3 [|e]]; [discriminate|]
    end.
    intros H. inversion H; subst. clear H.
    destruct Hg as (_ & G2 & _ & G4 & _ & _ & G7 & _).
    simpl in G2, G4, G7. rewrite Nat.add_sub' in G4. fold events in G2, G7.
    split; [exact G7|]. split; [|exact G4].
    apply prefix_length in G2. rewrite length_app, Hfill in G2. fold events in G2. lia.
Qed.

End Throwing.

Local Open Scope Q_scope.

(** A MultiPolygon whose second part projects beyond libtess's bound. *)
Lemma throw_leaves_parts_witness :
  let f := feature_of (MultiPolygon [[triangle_ring]; [far_ring]]) in
  let r := load_feature f new_layer in
  Polygons.changed (polygons (snd (fst r))) = Polygons.changed (polygons new_layer) /\
  Points.changed (points (snd (fst r))) = Points.changed (points new_layer) /\
  indexEnd (properties (fst (fst r))) = indexEnd (properties f).
Proof.
  destruct (throw_leaves_parts
              (feature_of (MultiPolygon [[triangle_ring]; [far_ring]]))
              (fst (fst (load_feature
                           (feature_of (MultiPolygon [[triangle_ring]; [far_ring]]))
                           new_layer)))
              new_layer
              (snd (fst (load_feature
                           (feature_of (MultiPolygon [[triangle_ring]; [far_ring]]))
                           new_layer)))
              GLU_TESS_COORD_TOO_LARGE) as (H1 & H2 & H3 & _).
  - reflexivity.
  - cbv zeta. now repeat split.
Defined.
